(** * Docunet: the chat mutation of [ChatContextProvider]

    A shallow embedding of [src/components/chat/ChatContext.tsx]: the
    [useMutation] callbacks ([onMutate], [mutationFn], [onSuccess],
    [onError], [onSettled]) that insert the user's message optimistically
    into the infinite-query cache, fold the streamed answer into it and
    roll back on failure.

    JavaScript objects that the code compares by reference or assigns to
    in place (the page objects of the infinite query) live in an explicit
    heap; everything else is a value. *)

From Stdlib Require Import NArith Ascii String.
From Stdlib.Strings Require Import Byte.
From stdpp Require Import gmap list.

Local Open Scope N_scope.

(** ** Strings

    A JavaScript string is a sequence of UTF-16 code units. *)

Abbreviation jstring := (list N).

(** A string literal of the source, all of them ASCII. *)
Definition js (s : string) : jstring :=
  (fun a => N_of_ascii a) <$> list_ascii_of_string s.

(** ** [TextDecoder]

    [new TextDecoder()] is the platform's UTF-8 decoder with
    [fatal = false] and [ignoreBOM = false]; the source calls
    [decoder.decode(value)] without [{stream: true}], so every call decodes
    its bytes on their own and flushes at the end.  The decoder below
    follows the UTF-8 decoder of the Encoding Standard byte by byte. *)

Record Utf8State := mkUtf8State {
  codePoint : N;
  bytesSeen : N;
  bytesNeeded : N;
  lowerBoundary : N;
  upperBoundary : N
}.

Definition utf8Init : Utf8State := mkUtf8State 0 0 0 0x80 0xBF.

Definition replacement : N := 0xFFFD.

(** The decoder's handler when no continuation byte is expected. *)
Definition utf8Lead (b : N) : list N * Utf8State :=
  if b <=? 0x7F then ([b], utf8Init)
  else if (0xC2 <=? b) && (b <=? 0xDF) then
    ([], mkUtf8State (N.land b 0x1F) 0 1 0x80 0xBF)
  else if (0xE0 <=? b) && (b <=? 0xEF) then
    ([], mkUtf8State (N.land b 0xF) 0 2
           (if b =? 0xE0 then 0xA0 else 0x80)
           (if b =? 0xED then 0x9F else 0xBF))
  else if (0xF0 <=? b) && (b <=? 0xF4) then
    ([], mkUtf8State (N.land b 0x7) 0 3
           (if b =? 0xF0 then 0x90 else 0x80)
           (if b =? 0xF4 then 0x8F else 0xBF))
  else ([replacement], utf8Init).

(** One byte: the code points emitted and the next state.  A byte outside
    the expected continuation range ends the sequence with U+FFFD and is
    then handled again as a lead byte. *)
Definition utf8Byte (st : Utf8State) (b : N) : list N * Utf8State :=
  if bytesNeeded st =? 0 then utf8Lead b
  else if negb ((lowerBoundary st <=? b) && (b <=? upperBoundary st)) then
    let '(out, st') := utf8Lead b in (replacement :: out, st')
  else
    let cp := N.lor (N.shiftl (codePoint st) 6) (N.land b 0x3F) in
    let seen := bytesSeen st + 1 in
    if seen =? bytesNeeded st then ([cp], utf8Init)
    else ([], mkUtf8State cp seen (bytesNeeded st) 0x80 0xBF).

(** The whole input; at its end an unfinished sequence gives U+FFFD. *)
Fixpoint utf8Run (st : Utf8State) (bytes : list byte) : list N :=
  match bytes with
  | [] => if bytesNeeded st =? 0 then [] else [replacement]
  | b :: rest =>
      let '(out, st') := utf8Byte st (Byte.to_N b) in
      out ++ utf8Run st' rest
  end.

(** A leading U+FEFF is dropped ([ignoreBOM] is false). *)
Definition stripBOM (cps : list N) : list N :=
  match cps with
  | c :: rest => if c =? 0xFEFF then rest else cps
  | [] => []
  end.

(** A code point as UTF-16 code units. *)
Definition utf16 (cp : N) : jstring :=
  if cp <? 0x10000 then [cp]
  else [0xD800 + N.shiftr (cp - 0x10000) 10;
        0xDC00 + N.land (cp - 0x10000) 0x3FF].

(** [decoder.decode(value)]; [value] is [undefined] on the final read. *)
Definition decode (value : option (list byte)) : jstring :=
  mjoin (utf16 <$> stripBOM (utf8Run utf8Init (default [] value))).

(** ** Data model *)

(** A message of [getFileMessages], as the cache holds it. *)
Record Message := mkMessage {
  createdAt : jstring;
  id : jstring;
  text : jstring;
  isUserMessage : bool
}.

(** A page object of the infinite query: its [messages] and the cursor
    that comes with them (the properties the spread [...page] carries). *)
Record Page := mkPage {
  messages : list Message;
  nextCursor : option jstring
}.

(** Page objects are compared with [===] and assigned to in place, so the
    cache refers to them by reference. *)
Abbreviation ref := nat.

(** [InfiniteData]: [{ pages, pageParams }]. *)
Record InfiniteData := mkInfiniteData {
  pages : list ref;
  pageParams : list (option jstring)
}.

(** The input of [getFileMessages]: [{ fileId }] or [{ fileId, limit }]. *)
Abbreviation Input := (jstring * option N)%type.

(** Calls on collaborators, in the order the code makes them. *)
Inductive Effect :=
  | ESetMessage (value : jstring)
  | ESetIsLoading (value : bool)
  | ECancel
  | EGetInfiniteData (input : option Input)
  | ESetInfiniteData (input : Input)
  | ESetData (input : Input) (data : list Message)
  | EFetch (fileId message : jstring)
  | EToast (title description variant : jstring)
  | EInvalidate (input : Input).

(** What a JavaScript computation can throw here. *)
Inductive Exn :=
  | TypeError
  | FetchRejected
  | ErrorFailedToSend
  | ReadRejected.

Inductive Completion (A : Type) :=
  | Normal (a : A)
  | Throw (err : Exn).
Arguments Normal {A} a.
Arguments Throw {A} err.

(** The component's state, the query cache and the heap of page objects.
    The query cache is keyed by procedure input and query type: the
    infinite queries and the plain queries of [getFileMessages] are two
    maps, each keyed by the optional input. *)
Record World := mkWorld {
  heap : gmap ref Page;
  infiniteQueries : gmap (option Input) InfiniteData;
  queries : gmap (option Input) (list Message);
  message : jstring;
  isLoading : bool;
  backupMessage : jstring;
  tick : nat;
  effects : list Effect
}.

(** What the component is given and what it imports: the [fileId] prop,
    the constant [INFINITE_QUERY_LIMIT] of [@/config/infinite-query], and
    the values [new Date().toISOString()] and [crypto.randomUUID()]
    return at each call. *)
Record Env := mkEnv {
  fileId : jstring;
  INFINITE_QUERY_LIMIT : N;
  toISOString : nat -> jstring;
  randomUUID : nat -> jstring
}.

(** ** A state and exception monad *)

Definition M (A : Type) : Type := World -> Completion A * World.

#[global] Instance M_ret : MRet M := fun A a w => (Normal a, w).

#[global] Instance M_bind : MBind M := fun A B k c w =>
  match c w with
  | (Normal a, w') => k a w'
  | (Throw err, w') => (Throw err, w')
  end.

Definition throw {A} (err : Exn) : M A := fun w => (Throw err, w).

(** [try { body } catch (err) { handler(err) }] *)
Definition tryCatch {A} (body : M A) (handler : Exn -> M A) : M A :=
  fun w =>
    match body w with
    | (Normal a, w') => (Normal a, w')
    | (Throw err, w') => handler err w'
    end.

Definition get : M World := fun w => (Normal w, w).

Definition modify (f : World -> World) : M unit := fun w => (Normal tt, f w).

Definition withHeap (h : gmap ref Page) (w : World) : World :=
  mkWorld h (infiniteQueries w) (queries w) (message w) (isLoading w)
          (backupMessage w) (tick w) (effects w).

Definition withInfiniteQueries (q : gmap (option Input) InfiniteData) (w : World) : World :=
  mkWorld (heap w) q (queries w) (message w) (isLoading w)
          (backupMessage w) (tick w) (effects w).

Definition withQueries (q : gmap (option Input) (list Message)) (w : World) : World :=
  mkWorld (heap w) (infiniteQueries w) q (message w) (isLoading w)
          (backupMessage w) (tick w) (effects w).

Definition withMessage (s : jstring) (w : World) : World :=
  mkWorld (heap w) (infiniteQueries w) (queries w) s (isLoading w)
          (backupMessage w) (tick w) (effects w).

Definition withIsLoading (b : bool) (w : World) : World :=
  mkWorld (heap w) (infiniteQueries w) (queries w) (message w) b
          (backupMessage w) (tick w) (effects w).

Definition withBackupMessage (s : jstring) (w : World) : World :=
  mkWorld (heap w) (infiniteQueries w) (queries w) (message w) (isLoading w)
          s (tick w) (effects w).

Definition withTick (n : nat) (w : World) : World :=
  mkWorld (heap w) (infiniteQueries w) (queries w) (message w) (isLoading w)
          (backupMessage w) n (effects w).

Definition withEffects (l : list Effect) (w : World) : World :=
  mkWorld (heap w) (infiniteQueries w) (queries w) (message w) (isLoading w)
          (backupMessage w) (tick w) l.

Definition emit (ev : Effect) : M unit :=
  modify (fun w => withEffects (effects w ++ [ev]) w).

(** ** The heap of page objects *)

(** [page.messages] and the like read the object a reference points to.
    The entries of the cache hold references of allocated objects only
    (see [wfData]); outside the heap a reference reads as an empty page. *)
Definition emptyPage : Page := mkPage [] None.

Definition deref (h : gmap ref Page) (r : ref) : Page :=
  default emptyPage (h !! r).

Definition readPage (r : ref) : M Page :=
  fun w => (Normal (deref (heap w) r), w).

(** [page.messages = ms]: assignment to a property of an existing object. *)
Definition assignMessages (r : ref) (ms : list Message) : M unit :=
  modify (fun w =>
    withHeap (<[r := mkPage ms (nextCursor (deref (heap w) r))]> (heap w)) w).

(** An object literal: a new object. *)
Definition newPage (p : Page) : M ref :=
  fun w =>
    let r := fresh (dom (heap w)) in
    (Normal r, withHeap (<[r := p]> (heap w)) w).

(** ** The environment's values *)

Definition newDateToISOString (e : Env) : M jstring :=
  fun w => (Normal (toISOString e (tick w)), withTick (S (tick w)) w).

Definition cryptoRandomUUID (e : Env) : M jstring :=
  fun w => (Normal (randomUUID e (tick w)), withTick (S (tick w)) w).

(** ** The collaborators

    React's state setters, the toast, and the tRPC utilities over the
    query cache.  [getInfiniteData] and [setInfiniteData] address the
    infinite query of exactly the input they are given; [setData]
    addresses the plain query of its input. *)

Definition setMessage (value : jstring) : M unit :=
  emit (ESetMessage value);;
  modify (withMessage value).

Definition setIsLoading (value : bool) : M unit :=
  emit (ESetIsLoading value);;
  modify (withIsLoading value).

Definition toast (title description variant : jstring) : M unit :=
  emit (EToast title description variant).

Definition cancel : M unit := emit ECancel.

Definition getInfiniteData (input : option Input) : M (option InfiniteData) :=
  emit (EGetInfiniteData input);;
  w ← get;
  mret (infiniteQueries w !! input).

Definition setInfiniteData (input : Input)
    (updater : option InfiniteData -> M InfiniteData) : M unit :=
  emit (ESetInfiniteData input);;
  w ← get;
  data ← updater (infiniteQueries w !! Some input);
  modify (fun w => withInfiniteQueries (<[Some input := data]> (infiniteQueries w)) w).

Definition setData (input : Input) (data : list Message) : M unit :=
  emit (ESetData input data);;
  modify (fun w => withQueries (<[Some input := data]> (queries w)) w).

Definition invalidate (input : Input) : M unit := emit (EInvalidate input).

(** A response body as its reader delivers it: [reader.read()] resolves to
    each chunk in turn with [done] false, and then either resolves to
    [{ value: undefined, done: true }] or rejects. *)
Inductive StreamEnd := Closed | Errored.

Record ReadableStream := mkStream {
  chunks : list (list byte);
  ending : StreamEnd
}.

(** The response to [fetch("/api/message", ...)]: the promise rejects, or
    resolves to a response with its [ok] flag and its [body]. *)
Inductive FetchResult :=
  | FetchRejects
  | FetchResolves (ok : bool) (body : option ReadableStream).

(** ** The mutation's callbacks *)

(** The context [onMutate] returns. *)
Record Context := mkContext { previousMessages : list Message }.

(** The query the chat reads: [{ fileId, limit: INFINITE_QUERY_LIMIT }]. *)
Definition queryInput (e : Env) : Input := (fileId e, Some (INFINITE_QUERY_LIMIT e)).

(** [{ fileId }] *)
Definition fileInput (e : Env) : Input := (fileId e, None).

(** [mutationFn] *)
Definition mutationFn (e : Env) (message : jstring) (response : FetchResult)
    : M (option ReadableStream) :=
  emit (EFetch (fileId e) message);;
  match response with
  | FetchRejects => throw FetchRejected
  | FetchResolves ok body =>
      if negb ok then throw ErrorFailedToSend else mret body
  end.

(** The updater of [onMutate], step 3. *)
Definition optimisticUpdater (e : Env) (message : jstring)
    (old : option InfiniteData) : M InfiniteData :=
  match old with
  | None => mret (mkInfiniteData [] [])
  | Some old =>
      let newPages := pages old in
      let latestPage := newPages !! 0%nat in
      now ← newDateToISOString e;
      uuid ← cryptoRandomUUID e;
      match latestPage with
      | None => throw TypeError
      | Some latestPage =>
          page ← readPage latestPage;
          assignMessages latestPage
            (mkMessage now uuid message true :: messages page);;
          mret (mkInfiniteData (<[0%nat := latestPage]> newPages) (pageParams old))
      end
  end.

(** [previousMessages?.pages.flatMap((page) => page.messages) ?? []] *)
Definition flatMessages (h : gmap ref Page) (previous : option InfiniteData) : list Message :=
  match previous with
  | Some data => flat_map (fun page => messages (deref h page)) (pages data)
  | None => []
  end.

(** [onMutate] *)
Definition onMutate (e : Env) (message : jstring) : M Context :=
  modify (withBackupMessage message);;
  setMessage [];;
  cancel;;
  previous ← getInfiniteData None;
  setInfiniteData (queryInput e) (optimisticUpdater e message);;
  setIsLoading true;;
  w ← get;
  mret (mkContext (flatMessages (heap w) previous)).

(** The reserved id of the answer being streamed. *)
Definition aiResponse : jstring := js "ai-response".

(** [page.messages.some((message) => message.id === "ai-response")] *)
Definition hasAiResponse (ms : list Message) : bool :=
  existsb (fun message => bool_decide (id message = aiResponse)) ms.

(** [old.pages.some(...)] *)
Definition isAiResponseCreated (h : gmap ref Page) (old : InfiniteData) : bool :=
  existsb (fun page => hasAiResponse (messages (deref h page))) (pages old).

(** The [else] branch: the text of every "ai-response" message replaced. *)
Definition replaceText (accResponse : jstring) (ms : list Message) : list Message :=
  (fun message =>
     if bool_decide (id message = aiResponse)
     then mkMessage (createdAt message) (id message) accResponse (isUserMessage message)
     else message) <$> ms.

(** [old.pages.map((page) => ...)]: the callback on each page in turn;
    [first] is [old.pages[0]]. *)
Fixpoint updatedPages (e : Env) (first : option ref) (created : bool)
    (accResponse : jstring) (ps : list ref) : M (list ref) :=
  match ps with
  | [] => mret []
  | page :: rest =>
      page' ←
        (if bool_decide (Some page = first) then
           p ← readPage page;
           updatedMessages ←
             (if negb created then
                now ← newDateToISOString e;
                mret (mkMessage now aiResponse accResponse false :: messages p)
              else mret (replaceText accResponse (messages p)));
           newPage (mkPage updatedMessages (nextCursor p))
         else mret page);
      rest' ← updatedPages e first created accResponse rest;
      mret (page' :: rest')
  end.

(** The updater of [onSuccess], called once per read. *)
Definition streamUpdater (e : Env) (accResponse : jstring)
    (old : option InfiniteData) : M InfiniteData :=
  match old with
  | None => mret (mkInfiniteData [] [])
  | Some old =>
      w ← get;
      let created := isAiResponseCreated (heap w) old in
      ps ← updatedPages e (pages old !! 0%nat) created accResponse (pages old);
      mret (mkInfiniteData ps (pageParams old))
  end.

(** The [while (!done)] loop over the reads of the stream. *)
Fixpoint readLoop (e : Env) (accResponse : jstring) (reads : list (list byte))
    (last : StreamEnd) : M unit :=
  match reads with
  | value :: rest =>
      let chuckValue := decode (Some value) in
      let accResponse := accResponse ++ chuckValue in
      setInfiniteData (queryInput e) (streamUpdater e accResponse);;
      readLoop e accResponse rest last
  | [] =>
      match last with
      | Errored => throw ReadRejected
      | Closed =>
          let chuckValue := decode None in
          let accResponse := accResponse ++ chuckValue in
          setInfiniteData (queryInput e) (streamUpdater e accResponse)
      end
  end.

(** [onSuccess] *)
Definition onSuccess (e : Env) (stream : option ReadableStream) : M unit :=
  setIsLoading false;;
  match stream with
  | None =>
      toast (js "There was a problem sending this message")
            (js "Please refresh this page and try again")
            (js "destructive")
  | Some stream => readLoop e [] (chunks stream) (ending stream)
  end.

(** [onError] *)
Definition onError (e : Env) (context : option Context) : M unit :=
  w ← get;
  setMessage (backupMessage w);;
  setData (fileInput e) (default [] (previousMessages <$> context)).

(** [onSettled] *)
Definition onSettled (e : Env) : M unit :=
  setIsLoading false;;
  invalidate (fileInput e).

(** ** The mutation's life cycle

    [useMutation] of [@tanstack/react-query] runs the callbacks in this
    order: [onMutate], then [mutationFn], then [onSuccess] and
    [onSettled], each awaited; whatever throws on the way is caught,
    [onError] and [onSettled] run with the context [onMutate] returned (if
    it did), and the error is then rethrown. *)
Definition execute (e : Env) (variables : jstring) (response : FetchResult) : M unit :=
  fun w =>
    match onMutate e variables w with
    | (Throw err, w1) => (onError e None;; onSettled e;; throw err) w1
    | (Normal context, w1) =>
        tryCatch
          (data ← mutationFn e variables response;
           onSuccess e data;;
           onSettled e)
          (fun err => onError e (Some context);; onSettled e;; throw err) w1
    end.

(** [mutate]: the promise of [execute] with its rejection swallowed. *)
Definition sendMessage (e : Env) (variables : jstring) (response : FetchResult) : M unit :=
  tryCatch (execute e variables response) (fun _ => mret tt).

(** [handleInputChange] *)
Definition handleInputChange (value : jstring) : M unit := setMessage value.

(** [addMessage] *)
Definition addMessage (e : Env) (response : FetchResult) : M unit :=
  w ← get;
  sendMessage e (message w) response.

(** ** Sample inputs *)

Definition sampleEnv : Env :=
  mkEnv (js "f1") 10
        (fun _ => js "2024-01-01T00:00:00.000Z")
        (fun _ => js "123e4567-e89b-42d3-a456-426614174000").

(** An earlier message of the file. *)
Definition m0 : Message := mkMessage (js "2023-12-31T23:59:59.000Z") (js "m0") (js "earlier") false.

(** Nothing cached, ["hi"] typed into the input field. *)
Definition emptyWorld : World :=
  mkWorld ∅ ∅ ∅ (js "hi") false [] 0 [].

(** The chat's query cached with one page holding [m0]. *)
Definition onePageWorld : World :=
  mkWorld {[ 0%nat := mkPage [m0] None ]}
          {[ Some (queryInput sampleEnv) := mkInfiniteData [0%nat] [None] ]}
          ∅ (js "hi") false [] 0 [].

(** The chat's query cached with no page at all. *)
Definition noPageWorld : World :=
  mkWorld ∅ {[ Some (queryInput sampleEnv) := mkInfiniteData [] [] ]}
          ∅ (js "hi") false [] 0 [].

(** The records of an entry, page by page. *)
Definition pageMessages (h : gmap ref Page) (data : InfiniteData) : list (list Message) :=
  (fun page => messages (deref h page)) <$> pages data.

(** The records of the chat's query, page by page. *)
Definition cachedPages (e : Env) (w : World) : option (list (list Message)) :=
  pageMessages (heap w) <$> infiniteQueries w !! Some (queryInput e).

(** The same, flattened; nothing when the query is not cached. *)
Definition cachedMessages (e : Env) (w : World) : list Message :=
  match cachedPages e w with
  | Some ps => concat ps
  | None => []
  end.

(** The stream of scenario B, ["Hel"] then ["lo!"], and the same stream
    failing after its first chunk. *)
Definition helloStream : ReadableStream :=
  mkStream [[x48; x65; x6c]; [x6c; x6f; x21]] Closed.

Definition brokenStream : ReadableStream :=
  mkStream [[x48; x65; x6c]] Errored.

(** ["é"] in one chunk and cut between its two bytes. *)
Definition wholeStream : ReadableStream := mkStream [[xc3; xa9]] Closed.

Definition splitStream : ReadableStream := mkStream [[xc3]; [xa9]] Closed.

(** ** Observations on a run *)

Definition isToast (ev : Effect) : bool :=
  match ev with EToast _ _ _ => true | _ => false end.

Definition isSetData (ev : Effect) : bool :=
  match ev with ESetData _ _ => true | _ => false end.

Definition isInvalidate (ev : Effect) : bool :=
  match ev with EInvalidate _ => true | _ => false end.

Definition isFetch (ev : Effect) : bool :=
  match ev with EFetch _ _ => true | _ => false end.

(** How many notifications, rollbacks and invalidations a trace holds. *)
Definition notifications (l : list Effect) : nat := length (List.filter isToast l).

Definition rollbacks (l : list Effect) : nat := length (List.filter isSetData l).

Definition invalidations (l : list Effect) : nat := length (List.filter isInvalidate l).

(** The busy flag after a trace, from its value before. *)
Definition busyAfter (busy : bool) (l : list Effect) : bool :=
  foldl (fun b ev => match ev with ESetIsLoading v => v | _ => b end) busy l.

(** The query filter of [invalidate(input)] selects a query when every
    property of [input] is a property of the query's input. *)
Definition partialMatch (filter key : Input) : bool :=
  bool_decide (filter.1 = key.1) &&
  match filter.2 with
  | None => true
  | Some limit => bool_decide (key.2 = Some limit)
  end.

(** The message a submit inserts and the record a first fold creates. *)
Definition ownMessage (e : Env) (t : nat) (text : jstring) : Message :=
  mkMessage (toISOString e t) (randomUUID e (S t)) text true.

Definition aiMessage (e : Env) (t : nat) (accResponse : jstring) : Message :=
  mkMessage (toISOString e t) aiResponse accResponse false.

(** The claim of optimistic visibility: the first page of the chat's query
    starts with an own message carrying the submitted text. *)
Definition optimisticVisible (e : Env) (submitted : jstring) (w : World) : Prop :=
  exists m ms rest,
    cachedPages e w = Some ((m :: ms) :: rest) /\
    text m = submitted /\ isUserMessage m = true.

(** The claim on the busy flag: it is still set at every cache write made
    after the request was dispatched. *)
Definition busyWhileStreaming (l : list Effect) : Prop :=
  forall pre post input,
    l = pre ++ ESetInfiniteData input :: post ->
    existsb isFetch pre = true ->
    busyAfter false pre = true.

(** ** Well-formed entries and the single pending record *)

Definition isAi (m : Message) : bool := bool_decide (id m = aiResponse).

(** The pages of an entry are distinct, allocated objects. *)
Definition wfData (h : gmap ref Page) (data : InfiniteData) : Prop :=
  NoDup (pages data) /\ forall r, r ∈ pages data -> is_Some (h !! r).

(** At most one record has the reserved id, and it sits in the first page. *)
Definition singlePending (h : gmap ref Page) (data : InfiniteData) : Prop :=
  (length (List.filter isAi (concat (pageMessages h data))) <= 1)%nat /\
  forall (i : nat) ms m,
    pageMessages h data !! i = Some ms -> m ∈ ms -> id m = aiResponse -> i = 0%nat.

Definition chatInv (e : Env) (w : World) : Prop :=
  forall data,
    infiniteQueries w !! Some (queryInput e) = Some data ->
    wfData (heap w) data /\ singlePending (heap w) data.

(** The steps a mutation takes on the world: the two cache transforms, the
    rollback, and the calls that leave the cache alone. *)
Inductive step (e : Env) : World -> World -> Prop :=
  | step_optimistic text w r w' :
      setInfiniteData (queryInput e) (optimisticUpdater e text) w = (r, w') ->
      step e w w'
  | step_stream accResponse w r w' :
      setInfiniteData (queryInput e) (streamUpdater e accResponse) w = (r, w') ->
      step e w w'
  | step_rollback data w r w' :
      setData (fileInput e) data w = (r, w') ->
      step e w w'
  | step_setMessage value w r w' :
      setMessage value w = (r, w') ->
      step e w w'
  | step_setIsLoading value w r w' :
      setIsLoading value w = (r, w') ->
      step e w w'
  | step_backup value w :
      step e w (withBackupMessage value w)
  | step_emit ev w r w' :
      emit ev w = (r, w') ->
      step e w w'.

(** A step that reads and writes only the heap, the infinite queries and
    the clock, and emits the given calls. *)
Definition cacheStep (emitted : list Effect) (w w' : World) : Prop :=
  queries w' = queries w /\ message w' = message w /\
  isLoading w' = isLoading w /\ backupMessage w' = backupMessage w /\
  effects w' = effects w ++ emitted.

(** What the read loop completes with. *)
Definition loopResult (last : StreamEnd) : Completion unit :=
  match last with
  | Closed => Normal tt
  | Errored => Throw ReadRejected
  end.

(** How many cache writes the read loop makes. *)
Definition loopWrites (reads : list (list byte)) (last : StreamEnd) : nat :=
  match last with
  | Closed => S (length reads)
  | Errored => length reads
  end.

(** The world in which the updater of [onMutate] runs: the input is
    backed up and cleared, reads are cancelled, the snapshot is read. *)
Definition submitting (text : jstring) (w : World) : World :=
  mkWorld (heap w) (infiniteQueries w) (queries w) [] (isLoading w) text (tick w)
          (effects w ++ [ESetMessage []; ECancel; EGetInfiniteData None]).

(** The world in which the read loop of [onSuccess] starts. *)
Definition streaming (e : Env) (text : jstring) (w : World) : World :=
  mkWorld (heap w) (infiniteQueries w) (queries w) (message w) false
          (backupMessage w) (tick w)
          (effects w ++ [EFetch (fileId e) text; ESetIsLoading false]).

(** The world once the request is dispatched. *)
Definition dispatched (e : Env) (text : jstring) (w : World) : World :=
  withEffects (effects w ++ [EFetch (fileId e) text]) w.

(** The world [onSettled] leaves. *)
Definition settled (e : Env) (w : World) : World :=
  mkWorld (heap w) (infiniteQueries w) (queries w) (message w) false
          (backupMessage w) (tick w)
          (effects w ++ [ESetIsLoading false; EInvalidate (fileInput e)]).

(** The world [onError] leaves. *)
Definition rolledBack (e : Env) (context : option Context) (w : World) : World :=
  mkWorld (heap w) (infiniteQueries w)
          (<[Some (fileInput e) := default [] (previousMessages <$> context)]> (queries w))
          (backupMessage w) (isLoading w) (backupMessage w) (tick w)
          (effects w ++ [ESetMessage (backupMessage w);
                         ESetData (fileInput e) (default [] (previousMessages <$> context))]).

(** The notification of [onSuccess]. *)
Definition problemToast : Effect :=
  EToast (js "There was a problem sending this message")
         (js "Please refresh this page and try again")
         (js "destructive").

(** A computation that moves the world by steps only. *)
Definition stepwise {A} (e : Env) (c : M A) : Prop :=
  forall w, rtc (step e) w (snd (c w)).

(** A pending record left in the cache, with the text ["old"]. *)
Definition staleAnswer : Message :=
  mkMessage (js "2023-12-31T23:59:59.500Z") (js "ai-response") (js "old") false.

(** The chat's query cached with one page holding [staleAnswer] and [m0]. *)
Definition pendingWorld : World :=
  mkWorld {[ 0%nat := mkPage [staleAnswer; m0] None ]}
          {[ Some (queryInput sampleEnv) := mkInfiniteData [0%nat] [None] ]}
          ∅ (js "hi") false [] 0 [].

(** A message of another conversation and a world in which the infinite
    query without input is cached too, with a page of its own. *)
Definition m1 : Message := mkMessage (js "2023-12-30T10:00:00.000Z") (js "m1") (js "other") true.

Definition inputlessWorld : World :=
  mkWorld {[ 0%nat := mkPage [m0] None; 1%nat := mkPage [m1] None ]}
          {[ Some (queryInput sampleEnv) := mkInfiniteData [0%nat] [None];
             None := mkInfiniteData [1%nat] [None] ]}
          ∅ (js "hi") false [] 0 [].

(** ** Further observations *)

(** How many requests a trace holds. *)
Definition fetches (l : list Effect) : nat := length (List.filter isFetch l).

(** The error [mutationFn] or [onSuccess] ends with, if any, by response. *)
Definition responseError (response : FetchResult) : option Exn :=
  match response with
  | FetchRejects => Some FetchRejected
  | FetchResolves false _ => Some ErrorFailedToSend
  | FetchResolves true None => None
  | FetchResolves true (Some stream) =>
      match ending stream with
      | Closed => None
      | Errored => Some ReadRejected
      end
  end.

(** The calls of [onError] and of [onSettled]. *)
Definition rollbackCalls (e : Env) (text : jstring) (context : Context) : list Effect :=
  [ESetMessage text; ESetData (fileInput e) (previousMessages context)].

Definition settleCalls (e : Env) : list Effect :=
  [ESetIsLoading false; EInvalidate (fileInput e)].

(** The calls that follow the request, by response. *)
Definition callsAfterDispatch (e : Env) (text : jstring) (context : Context)
    (response : FetchResult) : list Effect :=
  match response with
  | FetchRejects | FetchResolves false _ =>
      rollbackCalls e text context ++ settleCalls e
  | FetchResolves true None =>
      [ESetIsLoading false; problemToast] ++ settleCalls e
  | FetchResolves true (Some stream) =>
      [ESetIsLoading false]
      ++ replicate (loopWrites (chunks stream) (ending stream))
           (ESetInfiniteData (queryInput e))
      ++ match ending stream with
         | Closed => []
         | Errored => rollbackCalls e text context
         end
      ++ settleCalls e
  end.

(** The calls of [onMutate] when its updater returns. *)
Definition mutateCalls (e : Env) : list Effect :=
  [ESetMessage []; ECancel; EGetInfiniteData None;
   ESetInfiniteData (queryInput e); ESetIsLoading true].


(** Queries of other inputs read the same in both worlds. *)
Definition sameOtherQueries (e : Env) (w w' : World) : Prop :=
  (forall input, input <> Some (queryInput e) ->
                 infiniteQueries w' !! input = infiniteQueries w !! input) /\
  (forall input, input <> Some (fileInput e) ->
                 queries w' !! input = queries w !! input).


(** * Properties *)

Example decode_ascii : decode (Some [x48; x65; x6c]) = js "Hel".
Proof. reflexivity. Qed.

Example decode_e_acute : decode (Some [xc3; xa9]) = [0xE9].
Proof. reflexivity. Qed.

Example decode_euro : decode (Some [xe2; x82; xac]) = [0x20AC].
Proof. reflexivity. Qed.

Example decode_emoji : decode (Some [xf0; x9f; x98; x80]) = [0xD83D; 0xDE00].
Proof. reflexivity. Qed.

Example decode_truncated : decode (Some [xc3]) = [0xFFFD].
Proof. reflexivity. Qed.

Example decode_stray_continuation : decode (Some [xa9]) = [0xFFFD].
Proof. reflexivity. Qed.

Example decode_undefined : decode None = [].
Proof. reflexivity. Qed.

(** ** The monad *)

Lemma mbind_Normal {A B} (c : M A) (k : A -> M B) w a w' :
  c w = (Normal a, w') -> (c ≫= k) w = k a w'.
Proof. intros H. unfold mbind, M_bind. by rewrite H. Qed.

Lemma mbind_Throw {A B} (c : M A) (k : A -> M B) w err w' :
  c w = (Throw err, w') -> (c ≫= k) w = (Throw err, w').
Proof. intros H. unfold mbind, M_bind. by rewrite H. Qed.

Lemma cacheStep_refl w : cacheStep [] w w.
Proof. unfold cacheStep. by rewrite app_nil_r. Qed.

Lemma cacheStep_trans l1 l2 w w1 w2 :
  cacheStep l1 w w1 -> cacheStep l2 w1 w2 -> cacheStep (l1 ++ l2) w w2.
Proof.
  intros (Hq1 & Hm1 & Hl1 & Hb1 & He1) (Hq2 & Hm2 & Hl2 & Hb2 & He2).
  unfold cacheStep. rewrite Hq2, Hm2, Hl2, Hb2, He2, He1.
  by rewrite app_assoc.
Qed.

(** ** The stream updater never throws and keeps to the cache *)

Lemma heap_alloc_subseteq (h : gmap ref Page) (p : Page) :
  h ⊆ <[fresh (dom h) := p]> h.
Proof. apply insert_subseteq, not_elem_of_dom, is_fresh. Qed.

Lemma updatedPages_total e first created accResponse ps w :
  exists ps' h' t',
    updatedPages e first created accResponse ps w
    = (Normal ps', withTick t' (withHeap h' w)) /\
    heap w ⊆ h'.
Proof.
  revert w. induction ps as [|page rest IH]; intros w.
  - exists [], (heap w), (tick w). by destruct w.
  - cbn [updatedPages]. case_bool_decide.
    + destruct created; cbn.
      * destruct (IH (withHeap (<[fresh (dom (heap w)) :=
            mkPage (replaceText accResponse (messages (deref (heap w) page)))
                   (nextCursor (deref (heap w) page))]> (heap w)) w))
          as (ps' & h' & t' & Heq & Hsub).
        unfold mbind, M_bind in *. cbn in *. rewrite Heq. cbn.
        do 3 eexists. split; [reflexivity|].
        etrans; [apply heap_alloc_subseteq | exact Hsub].
      * destruct (IH (withHeap (<[fresh (dom (heap w)) :=
            mkPage (mkMessage (toISOString e (tick w)) aiResponse accResponse false
                      :: messages (deref (heap w) page))
                   (nextCursor (deref (heap w) page))]> (heap w))
            (withTick (S (tick w)) w)))
          as (ps' & h' & t' & Heq & Hsub).
        unfold mbind, M_bind in *. cbn in *. rewrite Heq. cbn.
        do 3 eexists. split; [reflexivity|].
        etrans; [apply heap_alloc_subseteq | exact Hsub].
    + destruct (IH w) as (ps' & h' & t' & Heq & Hsub).
      unfold mbind, M_bind in *. cbn in *. rewrite Heq. cbn. eauto.
Qed.

(** The stream updater is total and leaves every object it was given as
    it is: it only allocates. *)
Lemma streamUpdater_pure_total e accResponse old w :
  exists data w',
    streamUpdater e accResponse old w = (Normal data, w') /\
    heap w ⊆ heap w' /\
    infiniteQueries w' = infiniteQueries w.
Proof.
  destruct old as [old|]; [|by exists (mkInfiniteData [] []), w].
  unfold streamUpdater, get, mbind, M_bind. cbn.
  match goal with
  | |- context [updatedPages ?e ?f ?c ?a ?ps ?w0] =>
      destruct (updatedPages_total e f c a ps w0) as (ps' & h' & t' & Heq & Hsub);
      rewrite Heq
  end.
  cbn. do 2 eexists. split; [reflexivity|]. by cbn.
Qed.

Lemma streamWrite_total e accResponse w :
  exists w',
    setInfiniteData (queryInput e) (streamUpdater e accResponse) w = (Normal tt, w') /\
    cacheStep [ESetInfiniteData (queryInput e)] w w'.
Proof.
  unfold setInfiniteData, streamUpdater, emit, modify, get, mbind, M_bind. cbn.
  destruct (infiniteQueries w !! Some (queryInput e)) as [old|]; cbn.
  - match goal with
    | |- context [updatedPages ?e ?f ?c ?a ?ps ?w0] =>
        destruct (updatedPages_total e f c a ps w0) as (ps' & h' & t' & Heq & _);
        rewrite Heq
    end.
    cbn. eexists. split; [reflexivity|]. by unfold cacheStep.
  - eexists. split; [reflexivity|]. by unfold cacheStep.
Qed.

Lemma readLoop_total e accResponse reads last w :
  exists w',
    readLoop e accResponse reads last w = (loopResult last, w') /\
    cacheStep (replicate (loopWrites reads last) (ESetInfiniteData (queryInput e))) w w'.
Proof.
  revert accResponse w. induction reads as [|value rest IH]; intros accResponse w.
  - destruct last; cbn [readLoop loopResult loopWrites length replicate].
    + apply streamWrite_total.
    + exists w. split; [done|]. apply cacheStep_refl.
  - cbn [readLoop].
    destruct (streamWrite_total e (accResponse ++ decode (Some value)) w)
      as (w1 & Heq1 & Hstep1).
    destruct (IH (accResponse ++ decode (Some value)) w1) as (w2 & Heq2 & Hstep2).
    exists w2. split.
    + erewrite mbind_Normal by exact Heq1. exact Heq2.
    + replace (loopWrites (value :: rest) last) with (S (loopWrites rest last))
        by (by destruct last).
      change (replicate (S ?n) ?x) with ([x] ++ replicate n x).
      eapply cacheStep_trans; eauto.
Qed.

(** ** The optimistic write, case by case *)

Lemma optimisticWrite_absent e text w :
  infiniteQueries w !! Some (queryInput e) = None ->
  setInfiniteData (queryInput e) (optimisticUpdater e text) w
  = (Normal tt,
     mkWorld (heap w)
       (<[Some (queryInput e) := mkInfiniteData [] []]> (infiniteQueries w))
       (queries w) (message w) (isLoading w) (backupMessage w) (tick w)
       (effects w ++ [ESetInfiniteData (queryInput e)])).
Proof.
  intros Hold.
  unfold setInfiniteData, optimisticUpdater, emit, modify, get, mbind, M_bind.
  cbn. by rewrite Hold.
Qed.

Lemma optimisticWrite_noPage e text w old :
  infiniteQueries w !! Some (queryInput e) = Some old ->
  pages old = [] ->
  setInfiniteData (queryInput e) (optimisticUpdater e text) w
  = (Throw TypeError,
     mkWorld (heap w) (infiniteQueries w)
       (queries w) (message w) (isLoading w) (backupMessage w) (S (S (tick w)))
       (effects w ++ [ESetInfiniteData (queryInput e)])).
Proof.
  intros Hold Hpages.
  unfold setInfiniteData, optimisticUpdater, emit, modify, get, mbind, M_bind.
  cbn. rewrite Hold, Hpages. reflexivity.
Qed.

Lemma optimisticWrite_page e text w old r rs :
  infiniteQueries w !! Some (queryInput e) = Some old ->
  pages old = r :: rs ->
  setInfiniteData (queryInput e) (optimisticUpdater e text) w
  = (Normal tt,
     mkWorld
       (<[r := mkPage (ownMessage e (tick w) text :: messages (deref (heap w) r))
                      (nextCursor (deref (heap w) r))]> (heap w))
       (<[Some (queryInput e) := mkInfiniteData (r :: rs) (pageParams old)]>
          (infiniteQueries w))
       (queries w) (message w) (isLoading w) (backupMessage w) (S (S (tick w)))
       (effects w ++ [ESetInfiniteData (queryInput e)])).
Proof.
  intros Hold Hpages.
  unfold setInfiniteData, optimisticUpdater, emit, modify, get, mbind, M_bind.
  cbn. rewrite Hold, Hpages. reflexivity.
Qed.

Lemma optimisticWrite_cases e text w :
  exists r w',
    setInfiniteData (queryInput e) (optimisticUpdater e text) w = (r, w') /\
    cacheStep [ESetInfiniteData (queryInput e)] w w' /\
    (r = Normal tt \/ r = Throw TypeError).
Proof.
  destruct (infiniteQueries w !! Some (queryInput e)) as [old|] eqn:Hold.
  - destruct (pages old) as [|r rs] eqn:Hpages.
    + rewrite (optimisticWrite_noPage e text w old Hold Hpages).
      do 2 eexists. split; [reflexivity|]. split; [by unfold cacheStep | by right].
    + rewrite (optimisticWrite_page e text w old r rs Hold Hpages).
      do 2 eexists. split; [reflexivity|]. split; [by unfold cacheStep | by left].
  - rewrite (optimisticWrite_absent e text w Hold).
    do 2 eexists. split; [reflexivity|]. split; [by unfold cacheStep | by left].
Qed.

(** ** The stream write on an entry of distinct pages *)

Lemma updatedPages_other e first created accResponse ps w :
  (forall page, page ∈ ps -> Some page <> first) ->
  updatedPages e first created accResponse ps w = (Normal ps, w).
Proof.
  induction ps as [|page rest IH]; intros Hne; [done|].
  cbn [updatedPages]. rewrite bool_decide_eq_false_2 by (apply Hne; left).
  unfold mbind, M_bind in *. cbn.
  rewrite IH by (intros p Hp; apply Hne; by right). done.
Qed.

(** The messages the stream updater gives the first page. *)
Lemma streamWrite_page e accResponse w old r rs :
  infiniteQueries w !! Some (queryInput e) = Some old ->
  pages old = r :: rs ->
  r ∉ rs ->
  setInfiniteData (queryInput e) (streamUpdater e accResponse) w
  = (Normal tt,
     mkWorld
       (<[fresh (dom (heap w)) :=
            mkPage (if isAiResponseCreated (heap w) old
                    then replaceText accResponse (messages (deref (heap w) r))
                    else aiMessage e (tick w) accResponse :: messages (deref (heap w) r))
                   (nextCursor (deref (heap w) r))]> (heap w))
       (<[Some (queryInput e) :=
            mkInfiniteData (fresh (dom (heap w)) :: rs) (pageParams old)]>
          (infiniteQueries w))
       (queries w) (message w) (isLoading w) (backupMessage w)
       (if isAiResponseCreated (heap w) old then tick w else S (tick w))
       (effects w ++ [ESetInfiniteData (queryInput e)])).
Proof.
  intros Hold Hpages Hnotin.
  unfold setInfiniteData, streamUpdater, emit, modify, get, mbind, M_bind.
  cbn. rewrite Hold. cbn. rewrite Hpages. cbn.
  rewrite bool_decide_eq_true_2 by done.
  unfold mbind, M_bind. cbn.
  destruct (isAiResponseCreated (heap w) old); cbn;
    rewrite updatedPages_other by (intros p Hp [= ->]; done); reflexivity.
Qed.

(** ** The callbacks *)

Lemma onMutate_run e text w r w1 :
  setInfiniteData (queryInput e) (optimisticUpdater e text) (submitting text w) = (r, w1) ->
  onMutate e text w
  = match r with
    | Normal _ =>
        (Normal (mkContext (flatMessages (heap w1) (infiniteQueries w !! None))),
         mkWorld (heap w1) (infiniteQueries w1) (queries w1) (message w1) true
                 (backupMessage w1) (tick w1) (effects w1 ++ [ESetIsLoading true]))
    | Throw err => (Throw err, w1)
    end.
Proof.
  intros Hwrite.
  unfold onMutate, setMessage, cancel, getInfiniteData, setIsLoading, emit,
    modify, get, mbind, M_bind.
  cbn -[setInfiniteData].
  match goal with
  | |- context [setInfiniteData _ _ ?w0] =>
      replace w0 with (submitting text w)
        by (unfold submitting, withEffects, withMessage, withBackupMessage; cbn;
            by rewrite <- !app_assoc)
  end.
  rewrite Hwrite. by destruct r.
Qed.

Lemma onSettled_run e w : onSettled e w = (Normal tt, settled e w).
Proof.
  unfold onSettled, setIsLoading, invalidate, emit, modify, mbind, M_bind. cbn.
  unfold settled. by rewrite <- !app_assoc.
Qed.

Lemma onError_run e context w :
  onError e context w = (Normal tt, rolledBack e context w).
Proof.
  unfold onError, setMessage, setData, emit, modify, get, mbind, M_bind. cbn.
  unfold rolledBack. by rewrite <- !app_assoc.
Qed.

(** The [catch] branch of the life cycle. *)
Lemma failed_run e context err w :
  ((onError e context;; onSettled e;; throw err) : M unit) w
  = (Throw err, settled e (rolledBack e context w)).
Proof.
  unfold onError, onSettled, setMessage, setData, setIsLoading, invalidate,
    throw, emit, modify, get, mbind, M_bind.
  cbn. unfold settled, rolledBack. cbn. by rewrite <- !app_assoc.
Qed.

Lemma mutationFn_run e text response w :
  mutationFn e text response w
  = (match response with
     | FetchRejects => Throw FetchRejected
     | FetchResolves false _ => Throw ErrorFailedToSend
     | FetchResolves true body => Normal body
     end,
     dispatched e text w).
Proof.
  unfold mutationFn, emit, modify, mbind, M_bind. cbn.
  by destruct response as [|[] ?].
Qed.

Lemma onSuccess_noBody e w :
  onSuccess e None w
  = (Normal tt, withEffects (effects w ++ [ESetIsLoading false; problemToast])
                  (withIsLoading false w)).
Proof.
  unfold onSuccess, setIsLoading, toast, emit, modify, mbind, M_bind.
  cbn -[js]. unfold withEffects, problemToast. cbn -[js]. by rewrite <- !app_assoc.
Qed.

Lemma onSuccess_stream e text stream w :
  onSuccess e (Some stream) (dispatched e text w)
  = readLoop e [] (chunks stream) (ending stream) (streaming e text w).
Proof.
  unfold onSuccess, setIsLoading, emit, modify, mbind, M_bind.
  cbn -[readLoop]. f_equal. unfold streaming. by rewrite <- !app_assoc.
Qed.

(** ** The life cycle, case by case *)

Lemma execute_onMutate_throws e text response w err w1 :
  onMutate e text w = (Throw err, w1) ->
  execute e text response w = (Throw err, settled e (rolledBack e None w1)).
Proof. intros H. unfold execute. rewrite H. apply failed_run. Qed.

Lemma execute_request_fails e text response w context w1 :
  onMutate e text w = (Normal context, w1) ->
  (response = FetchRejects \/ exists body, response = FetchResolves false body) ->
  exists err,
    execute e text response w
    = (Throw err, settled e (rolledBack e (Some context) (dispatched e text w1))).
Proof.
  intros H Hresp.
  destruct Hresp as [->|[body ->]];
    (eexists; unfold execute, tryCatch; rewrite H;
     erewrite (mbind_Throw (mutationFn e text _))
       by (rewrite mutationFn_run; reflexivity);
     apply failed_run).
Qed.

Lemma execute_noBody e text w context w1 :
  onMutate e text w = (Normal context, w1) ->
  execute e text (FetchResolves true None) w
  = (Normal tt,
     settled e (withEffects (effects w1 ++ [EFetch (fileId e) text; ESetIsLoading false; problemToast])
                  (withIsLoading false w1))).
Proof.
  intros H. unfold execute, tryCatch. rewrite H.
  erewrite (mbind_Normal (mutationFn e text _))
    by (rewrite mutationFn_run; reflexivity).
  erewrite (mbind_Normal (onSuccess e None)) by apply onSuccess_noBody.
  rewrite onSettled_run. do 2 f_equal.
  unfold dispatched, withEffects, withIsLoading. cbn -[js]. by rewrite <- !app_assoc.
Qed.

Lemma execute_stream e text stream w context w1 :
  onMutate e text w = (Normal context, w1) ->
  exists w2,
    readLoop e [] (chunks stream) (ending stream) (streaming e text w1)
    = (loopResult (ending stream), w2) /\
    cacheStep (replicate (loopWrites (chunks stream) (ending stream))
                 (ESetInfiniteData (queryInput e)))
              (streaming e text w1) w2 /\
    execute e text (FetchResolves true (Some stream)) w
    = match ending stream with
      | Closed => (Normal tt, settled e w2)
      | Errored => (Throw ReadRejected, settled e (rolledBack e (Some context) w2))
      end.
Proof.
  intros H.
  destruct (readLoop_total e [] (chunks stream) (ending stream) (streaming e text w1))
    as (w2 & Hloop & Hstep).
  exists w2. split; [done|]. split; [done|].
  unfold execute, tryCatch. rewrite H.
  erewrite (mbind_Normal (mutationFn e text _))
    by (rewrite mutationFn_run; reflexivity).
  rewrite <- onSuccess_stream in Hloop.
  destruct (ending stream); cbn [loopResult] in Hloop.
  - erewrite (mbind_Normal (onSuccess e _)) by exact Hloop.
    by rewrite onSettled_run.
  - erewrite (mbind_Throw (onSuccess e _)) by exact Hloop.
    apply failed_run.
Qed.

Lemma onMutate_returns e text w context w1 :
  onMutate e text w = (Normal context, w1) ->
  message w1 = [] /\ isLoading w1 = true /\ backupMessage w1 = text /\
  queries w1 = queries w /\
  effects w1 = effects w ++ [ESetMessage []; ECancel; EGetInfiniteData None;
                             ESetInfiniteData (queryInput e); ESetIsLoading true].
Proof.
  intros H.
  destruct (optimisticWrite_cases e text (submitting text w))
    as (r & w0 & Heq & (Hq & Hm & Hl & Hb & He) & Hr).
  rewrite (onMutate_run e text w r w0 Heq) in H.
  destruct Hr as [-> | ->]; [|done].
  injection H as _ <-. cbn in *.
  rewrite Hq, Hm, Hb, He, <- !app_assoc. done.
Qed.

Lemma onMutate_throws e text w err w1 :
  onMutate e text w = (Throw err, w1) ->
  err = TypeError /\
  message w1 = [] /\ isLoading w1 = isLoading w /\ backupMessage w1 = text /\
  queries w1 = queries w /\
  effects w1 = effects w ++ [ESetMessage []; ECancel; EGetInfiniteData None;
                             ESetInfiniteData (queryInput e)].
Proof.
  intros H.
  destruct (optimisticWrite_cases e text (submitting text w))
    as (r & w0 & Heq & (Hq & Hm & Hl & Hb & He) & Hr).
  rewrite (onMutate_run e text w r w0 Heq) in H.
  destruct Hr as [-> | ->]; [done|].
  injection H as <- <-. cbn in *.
  rewrite Hq, Hm, Hl, Hb, He, <- !app_assoc. done.
Qed.

(** ** Counting calls in a trace *)

Lemma notifications_app l1 l2 :
  notifications (l1 ++ l2) = (notifications l1 + notifications l2)%nat.
Proof. unfold notifications. by rewrite List.filter_app, length_app. Qed.

Lemma rollbacks_app l1 l2 :
  rollbacks (l1 ++ l2) = (rollbacks l1 + rollbacks l2)%nat.
Proof. unfold rollbacks. by rewrite List.filter_app, length_app. Qed.

Lemma invalidations_app l1 l2 :
  invalidations (l1 ++ l2) = (invalidations l1 + invalidations l2)%nat.
Proof. unfold invalidations. by rewrite List.filter_app, length_app. Qed.

Lemma filter_writes (P : Effect -> bool) n input :
  P (ESetInfiniteData input) = false ->
  List.filter P (replicate n (ESetInfiniteData input)) = [].
Proof.
  intros HP. induction n as [|n IH]; [done|].
  cbn [replicate List.filter]. by rewrite HP.
Qed.

Lemma notifications_writes n input :
  notifications (replicate n (ESetInfiniteData input)) = 0%nat.
Proof. unfold notifications. by rewrite filter_writes. Qed.

Lemma rollbacks_writes n input :
  rollbacks (replicate n (ESetInfiniteData input)) = 0%nat.
Proof. unfold rollbacks. by rewrite filter_writes. Qed.

Lemma invalidations_writes n input :
  invalidations (replicate n (ESetInfiniteData input)) = 0%nat.
Proof. unfold invalidations. by rewrite filter_writes. Qed.

Lemma busyAfter_app busy l1 l2 :
  busyAfter busy (l1 ++ l2) = busyAfter (busyAfter busy l1) l2.
Proof. unfold busyAfter. apply foldl_app. Qed.

Lemma busyAfter_writes busy n input :
  busyAfter busy (replicate n (ESetInfiniteData input)) = busy.
Proof. induction n as [|n IH]; [done|]. exact IH. Qed.

(** ** Settling *)

Lemma sendMessage_of_execute e text response w r w' :
  execute e text response w = (r, w') ->
  sendMessage e text response w = (Normal tt, w').
Proof. intros H. unfold sendMessage, tryCatch. rewrite H. by destruct r as [[]|]. Qed.

(** What every way through the life cycle has in common: it ends in
    [onSettled], and nothing before that invalidates. *)
Ltac settles_by Hex He1 :=
  do 3 eexists; split; [exact Hex|]; cbn -[replicate js];
  rewrite ?He1, <- ?app_assoc; split; reflexivity.

Lemma execute_settles e text response w :
  exists r w0 emitted,
    execute e text response w = (r, settled e w0) /\
    effects w0 = effects w ++ emitted /\
    invalidations emitted = 0%nat.
Proof.
  destruct (onMutate e text w) as [[context|err] w1] eqn:Hm.
  - destruct (onMutate_returns _ _ _ _ _ Hm) as (_ & _ & _ & _ & He1).
    destruct response as [|[] [stream|]].
    + destruct (execute_request_fails e text FetchRejects
                  w context w1 Hm) as (err & Hex); [by left|].
      settles_by Hex He1.
    + destruct (execute_stream e text stream w context w1 Hm)
        as (w2 & _ & (_ & _ & _ & _ & He2) & Hex).
      destruct (ending stream); do 3 eexists; (split; [exact Hex|]);
        cbn -[replicate]; rewrite He2; cbn -[replicate];
        rewrite He1, <- !app_assoc;
        (split; [reflexivity|]);
        rewrite !invalidations_app, invalidations_writes; reflexivity.
    + pose proof (execute_noBody e text w context w1 Hm) as Hex.
      settles_by Hex He1.
    + destruct (execute_request_fails e text (FetchResolves false (Some stream))
                  w context w1 Hm) as (err & Hex); [right; eauto|].
      settles_by Hex He1.
    + destruct (execute_request_fails e text (FetchResolves false None)
                  w context w1 Hm) as (err & Hex); [right; eauto|].
      settles_by Hex He1.
  - destruct (onMutate_throws _ _ _ _ _ Hm) as (_ & _ & _ & _ & _ & He1).
    pose proof (execute_onMutate_throws e text response w err w1 Hm) as Hex.
    settles_by Hex He1.
Qed.

(** C9: every mutation, whatever the response and whether it succeeds or
    fails, ends with exactly one [invalidate] call, made after everything
    else, with a filter that selects the chat's query, and leaves the busy
    flag false. *)
Theorem settle_invalidates_once e text response w :
  exists w' emitted,
    sendMessage e text response w = (Normal tt, w') /\
    effects w' = effects w ++ emitted ++ [EInvalidate (fileInput e)] /\
    invalidations emitted = 0%nat /\
    invalidations (emitted ++ [EInvalidate (fileInput e)]) = 1%nat /\
    partialMatch (fileInput e) (queryInput e) = true /\
    isLoading w' = false.
Proof.
  destruct (execute_settles e text response w) as (r & w0 & emitted & Hex & He & Hinv).
  exists (settled e w0), (emitted ++ [ESetIsLoading false]).
  split; [by eapply sendMessage_of_execute|].
  split; [cbn; by rewrite He, <- !app_assoc|].
  split; [by rewrite invalidations_app, Hinv|].
  split; [by rewrite !invalidations_app, Hinv|].
  split; [|done].
  unfold partialMatch, fileInput, queryInput. cbn. by rewrite bool_decide_eq_true_2.
Qed.

(** ** A response without a body *)

(** C4, as the code has it, for every response without a body.  When the
    response is ok, [onSuccess] emits its notification and returns;
    nothing is thrown, so [onError] is not called: one notification, no
    rollback, the optimistic record and the cleared input stay as
    [onMutate] left them.  When the response is not ok, [mutationFn]
    throws before [onSuccess] is reached: no notification, [onError] runs
    once (the input is restored and [setData] is called with the
    snapshot).  [onSettled] follows in both cases. *)
Theorem no_body_notifies_without_rollback e text ok w context w1 :
  onMutate e text w = (Normal context, w1) ->
  exists w',
    sendMessage e text (FetchResolves ok None) w = (Normal tt, w') /\
    effects w'
    = effects w1 ++ [EFetch (fileId e) text]
      ++ (if ok then [ESetIsLoading false; problemToast]
          else [ESetMessage text;
                ESetData (fileInput e) (previousMessages context)])
      ++ [ESetIsLoading false; EInvalidate (fileInput e)] /\
    notifications (effects w')
    = (notifications (effects w) + if ok then 1 else 0)%nat /\
    rollbacks (effects w')
    = (rollbacks (effects w) + if ok then 0 else 1)%nat /\
    heap w' = heap w1 /\ infiniteQueries w' = infiniteQueries w1 /\
    queries w'
    = (if ok then queries w
       else <[Some (fileInput e) := previousMessages context]> (queries w)) /\
    message w' = (if ok then [] else text) /\
    isLoading w' = false.
Proof.
  intros Hm.
  destruct (onMutate_returns _ _ _ _ _ Hm) as (Hmsg & _ & Hb1 & Hq & He1).
  destruct ok.
  - eexists. split.
    { eapply sendMessage_of_execute. by eapply execute_noBody. }
    cbn -[js notifications rollbacks]. rewrite <- !app_assoc.
    split; [done|]. rewrite He1.
    split; [rewrite !notifications_app; cbn; lia|].
    split; [rewrite !rollbacks_app; cbn; lia|].
    done.
  - destruct (execute_request_fails e text (FetchResolves false None) w context w1 Hm)
      as (err & Hex); [right; eauto|].
    eexists. split; [by eapply sendMessage_of_execute|].
    cbn -[notifications rollbacks]. rewrite Hb1, Hq, <- !app_assoc.
    split; [done|]. rewrite He1.
    split; [rewrite !notifications_app; cbn; lia|].
    split; [rewrite !rollbacks_app; cbn; lia|].
    done.
Qed.

Lemma no_body_notifies_without_rollback_witness :
  (exists w',
      sendMessage sampleEnv (js "hi") (FetchResolves true None) onePageWorld
      = (Normal tt, w') /\
      notifications (effects w') = 1%nat /\ rollbacks (effects w') = 0%nat /\
      message w' = []) /\
  (exists w',
      sendMessage sampleEnv (js "hi") (FetchResolves false None) onePageWorld
      = (Normal tt, w') /\
      notifications (effects w') = 0%nat /\ rollbacks (effects w') = 1%nat /\
      message w' = js "hi").
Proof.
  assert (Hm : onMutate sampleEnv (js "hi") onePageWorld
               = (Normal (mkContext []), snd (onMutate sampleEnv (js "hi") onePageWorld)))
    by (vm_compute; reflexivity).
  split.
  - destruct (no_body_notifies_without_rollback sampleEnv (js "hi") true
                onePageWorld _ _ Hm)
      as (w' & Hrun & _ & Hn & Hr & _ & _ & _ & Hmsg & _).
    exists w'. split; [exact Hrun|]. split; [exact Hn|]. split; [exact Hr | exact Hmsg].
  - destruct (no_body_notifies_without_rollback sampleEnv (js "hi") false
                onePageWorld _ _ Hm)
      as (w' & Hrun & _ & Hn & Hr & _ & _ & _ & Hmsg & _).
    exists w'. split; [exact Hrun|]. split; [exact Hn|]. split; [exact Hr | exact Hmsg].
Defined.

(** C4 as claimed fails: on a response without a body the rollback does
    not run once, it does not run at all. *)
Lemma no_body_rollback_counterexample :
  rollbacks (effects (snd (addMessage sampleEnv (FetchResolves true None) onePageWorld)))
  <> 1%nat.
Proof. vm_compute. discriminate. Qed.

(** ** A stream that fails while it is read *)

(** C3, as the code has it: a read that rejects after the response arrived
    is caught by the life cycle and handed to [onError]: the input is
    restored, the snapshot is written with [setData], the mutation settles
    and [mutate] returns normally.  No notification is emitted on this
    way. *)
Theorem stream_error_is_caught_silently e text reads w context w1 :
  onMutate e text w = (Normal context, w1) ->
  let response := FetchResolves true (Some (mkStream reads Errored)) in
  exists w2,
    let w3 := settled e (rolledBack e (Some context) w2) in
    onSuccess e (Some (mkStream reads Errored)) (dispatched e text w1)
    = (Throw ReadRejected, w2) /\
    execute e text response w = (Throw ReadRejected, w3) /\
    sendMessage e text response w = (Normal tt, w3) /\
    message w3 = text /\
    queries w3 !! Some (fileInput e) = Some (previousMessages context) /\
    effects w3 = effects w2 ++ [ESetMessage text;
                                ESetData (fileInput e) (previousMessages context);
                                ESetIsLoading false; EInvalidate (fileInput e)] /\
    notifications (effects w3) = notifications (effects w) /\
    rollbacks (effects w3) = S (rollbacks (effects w)).
Proof.
  intros Hm response.
  destruct (onMutate_returns _ _ _ _ _ Hm) as (_ & _ & Hb1 & _ & He1).
  destruct (execute_stream e text (mkStream reads Errored) w context w1 Hm)
    as (w2 & Hloop & (_ & _ & _ & Hb2 & He2) & Hex).
  cbn [chunks ending loopResult loopWrites] in *.
  exists w2. cbn zeta.
  split; [by rewrite onSuccess_stream|].
  split; [exact Hex|].
  split; [by eapply sendMessage_of_execute|].
  cbn -[notifications rollbacks replicate]. rewrite Hb2. cbn. rewrite Hb1.
  split; [done|]. split; [by rewrite lookup_insert_eq|].
  split; [by rewrite <- !app_assoc|].
  rewrite He2. cbn -[notifications rollbacks replicate]. rewrite He1.
  split.
  - rewrite !notifications_app, notifications_writes. cbn. lia.
  - rewrite !rollbacks_app, rollbacks_writes. cbn. lia.
Qed.

Lemma stream_error_is_caught_silently_witness :
  exists w3,
    sendMessage sampleEnv (js "hi") (FetchResolves true (Some brokenStream)) onePageWorld
    = (Normal tt, w3) /\
    message w3 = js "hi" /\ notifications (effects w3) = 0%nat.
Proof.
  assert (Hm : onMutate sampleEnv (js "hi") onePageWorld
               = (Normal (mkContext []), snd (onMutate sampleEnv (js "hi") onePageWorld)))
    by (vm_compute; reflexivity).
  destruct (stream_error_is_caught_silently sampleEnv (js "hi") [[x48; x65; x6c]]
              onePageWorld _ _ Hm)
    as (w2 & _ & _ & Hrun & Hmsg & _ & _ & Hn & _).
  eexists. split; [exact Hrun|]. split; [exact Hmsg | exact Hn].
Defined.

(** C3 as claimed fails: when the stream fails after its first chunk, no
    notification is emitted. *)
Lemma stream_error_notification_counterexample :
  ~ exists title description variant,
      EToast title description variant
      ∈ effects (snd (addMessage sampleEnv (FetchResolves true (Some brokenStream))
                        onePageWorld)).
Proof.
  intros (title & description & variant & Hin).
  vm_compute in Hin.
  repeat (apply elem_of_cons in Hin as [Hin|Hin]; [discriminate|]).
  by apply elem_of_nil in Hin.
Qed.

(** ** The busy flag *)

(** C7, as the code has it: [onMutate] leaves the busy flag set, it is
    still set when the request is dispatched, and [onSuccess] clears it as
    its first step, before the read loop: it is false at each of the
    loop's cache writes and stays false through settling. *)
Theorem busy_cleared_before_streaming e text stream w context w1 :
  onMutate e text w = (Normal context, w1) ->
  isLoading w1 = true /\
  isLoading (dispatched e text w1) = true /\
  exists w2 w',
    onSuccess e (Some stream) (dispatched e text w1)
    = (loopResult (ending stream), w2) /\
    effects w2 = effects w1 ++ [EFetch (fileId e) text; ESetIsLoading false]
                 ++ replicate (loopWrites (chunks stream) (ending stream))
                      (ESetInfiniteData (queryInput e)) /\
    (forall n, busyAfter (isLoading w1)
                 ([EFetch (fileId e) text; ESetIsLoading false]
                  ++ replicate n (ESetInfiniteData (queryInput e))) = false) /\
    isLoading w2 = false /\
    sendMessage e text (FetchResolves true (Some stream)) w = (Normal tt, w') /\
    isLoading w' = false.
Proof.
  intros Hm.
  destruct (onMutate_returns _ _ _ _ _ Hm) as (_ & Hl1 & _ & _ & _).
  destruct (execute_stream e text stream w context w1 Hm)
    as (w2 & Hloop & (_ & _ & Hl2 & _ & He2) & Hex).
  split; [done|]. split; [done|].
  exists w2.
  exists (match ending stream with
          | Closed => settled e w2
          | Errored => settled e (rolledBack e (Some context) w2)
          end).
  split; [by rewrite onSuccess_stream|].
  split; [rewrite He2; cbn -[replicate]; by rewrite <- !app_assoc|].
  split; [intros n; by rewrite busyAfter_app, busyAfter_writes|].
  split; [by rewrite Hl2|].
  destruct (ending stream); (split; [by eapply sendMessage_of_execute | done]).
Qed.

Lemma busy_cleared_before_streaming_witness :
  exists w2,
    onSuccess sampleEnv (Some helloStream)
      (dispatched sampleEnv (js "hi") (snd (onMutate sampleEnv (js "hi") onePageWorld)))
    = (Normal tt, w2) /\
    isLoading w2 = false.
Proof.
  assert (Hm : onMutate sampleEnv (js "hi") onePageWorld
               = (Normal (mkContext []), snd (onMutate sampleEnv (js "hi") onePageWorld)))
    by (vm_compute; reflexivity).
  destruct (busy_cleared_before_streaming sampleEnv (js "hi") helloStream
              onePageWorld _ _ Hm)
    as (_ & _ & w2 & w' & Hrun & _ & _ & Hl & _).
  exists w2. split; [exact Hrun | exact Hl].
Defined.

(** C7 as claimed fails: the stream's increments are folded into the cache
    with the busy flag already cleared. *)
Lemma busy_while_streaming_counterexample :
  ~ busyWhileStreaming
      (effects (snd (addMessage sampleEnv (FetchResolves true (Some helloStream))
                       onePageWorld))).
Proof.
  intros H.
  specialize (H [ESetMessage []; ECancel; EGetInfiniteData None;
                 ESetInfiniteData (queryInput sampleEnv); ESetIsLoading true;
                 EFetch (fileId sampleEnv) (js "hi"); ESetIsLoading false]
                [ESetInfiniteData (queryInput sampleEnv);
                 ESetInfiniteData (queryInput sampleEnv);
                 ESetIsLoading false; EInvalidate (fileInput sampleEnv)]
                (queryInput sampleEnv)).
  vm_compute in H. specialize (H eq_refl eq_refl). discriminate.
Qed.

(** ** Scenarios *)

(** The chunks ["Hel"] and ["lo!"] on a cached page: the pending record
    reads ["Hel"] after the first chunk and ["Hello!"] at the end, and it
    is the only record with the reserved id. *)
Example scenario_B :
  let sent := snd (onMutate sampleEnv (js "hi") onePageWorld) in
  let first := snd (readLoop sampleEnv [] [[x48; x65; x6c]] Errored sent) in
  let final := snd (readLoop sampleEnv [] (chunks helloStream) Closed sent) in
  cachedMessages sampleEnv first
  = [aiMessage sampleEnv 2 (js "Hel"); ownMessage sampleEnv 0 (js "hi"); m0] /\
  cachedMessages sampleEnv final
  = [aiMessage sampleEnv 2 (js "Hello!"); ownMessage sampleEnv 0 (js "hi"); m0].
Proof. vm_compute. done. Qed.

(** A submit on a cached query without pages: the updater throws, the
    request is never sent, the input text comes back. *)
Example submit_without_pages :
  let w := snd (addMessage sampleEnv (FetchResolves true (Some helloStream)) noPageWorld) in
  fst (execute sampleEnv (js "hi") (FetchResolves true (Some helloStream)) noPageWorld)
  = Throw TypeError /\
  existsb isFetch (effects w) = false /\
  message w = js "hi".
Proof. vm_compute. done. Qed.

(** ** The optimistic insert *)

(** C2, as the code has it: when the chat's query is cached with at least
    one page, [onMutate] puts the new own message, carrying the submitted
    text, at position 0 of the first page; when the query is not cached,
    the updater initialises it to [{ pages: [], pageParams: [] }] and
    inserts nothing. *)
Theorem optimistic_insert_needs_a_page e text w :
  (forall old r rs,
      infiniteQueries w !! Some (queryInput e) = Some old ->
      pages old = r :: rs ->
      exists context w1 rest,
        onMutate e text w = (Normal context, w1) /\
        cachedPages e w1
        = Some ((ownMessage e (tick w) text :: messages (deref (heap w) r)) :: rest) /\
        optimisticVisible e text w1) /\
  (infiniteQueries w !! Some (queryInput e) = None ->
      exists context w1,
        onMutate e text w = (Normal context, w1) /\
        cachedPages e w1 = Some [] /\
        ~ optimisticVisible e text w1).
Proof.
  split.
  - intros old r rs Hold Hpages.
    pose proof (optimisticWrite_page e text (submitting text w) old r rs Hold Hpages)
      as Hwrite.
    rewrite (onMutate_run e text w _ _ Hwrite).
    assert (Hcached : cachedPages e
        (mkWorld
           (<[r := mkPage (ownMessage e (tick w) text :: messages (deref (heap w) r))
                          (nextCursor (deref (heap w) r))]> (heap w))
           (<[Some (queryInput e) := mkInfiniteData (r :: rs) (pageParams old)]>
              (infiniteQueries w))
           (queries w) [] true text (S (S (tick w)))
           ((effects w ++ [ESetMessage []; ECancel; EGetInfiniteData None])
              ++ [ESetInfiniteData (queryInput e)] ++ [ESetIsLoading true]))
      = Some ((ownMessage e (tick w) text :: messages (deref (heap w) r))
                :: ((fun page => messages (deref
                       (<[r := mkPage (ownMessage e (tick w) text :: messages (deref (heap w) r))
                                      (nextCursor (deref (heap w) r))]> (heap w)) page)) <$> rs))).
    { unfold cachedPages, pageMessages. cbn.
      rewrite lookup_insert_eq. cbn. unfold deref at 1. by rewrite lookup_insert_eq. }
    do 3 eexists. split; [|split].
    + cbn. rewrite <- !app_assoc. reflexivity.
    + rewrite <- !app_assoc in Hcached. exact Hcached.
    + do 3 eexists. split; [rewrite <- !app_assoc in Hcached; exact Hcached|]. done.
  - intros Hold.
    pose proof (optimisticWrite_absent e text (submitting text w) Hold) as Hwrite.
    rewrite (onMutate_run e text w _ _ Hwrite).
    do 2 eexists. split; [reflexivity|].
    assert (Hcached : forall l, cachedPages e
        (mkWorld (heap w)
           (<[Some (queryInput e) := mkInfiniteData [] []]> (infiniteQueries w))
           (queries w) [] true text (tick w) l) = Some []).
    { intros l. unfold cachedPages, pageMessages. cbn. by rewrite lookup_insert_eq. }
    split; [apply Hcached|].
    intros (m & ms & rest & Hvis & _). cbn in Hvis. rewrite Hcached in Hvis. done.
Qed.

Lemma optimistic_insert_needs_a_page_witness :
  (exists context w1 rest,
      onMutate sampleEnv (js "hi") onePageWorld = (Normal context, w1) /\
      cachedPages sampleEnv w1 = Some ((ownMessage sampleEnv 0 (js "hi") :: [m0]) :: rest)) /\
  (exists context w1,
      onMutate sampleEnv (js "hi") emptyWorld = (Normal context, w1) /\
      cachedPages sampleEnv w1 = Some []).
Proof.
  split.
  - destruct (proj1 (optimistic_insert_needs_a_page sampleEnv (js "hi") onePageWorld)
                (mkInfiniteData [0%nat] [None]) 0%nat [])
      as (context & w1 & rest & Hrun & Hcached & _);
      [by vm_compute | reflexivity |].
    exists context, w1, rest. split; [exact Hrun | exact Hcached].
  - destruct (proj2 (optimistic_insert_needs_a_page sampleEnv (js "hi") emptyWorld))
      as (context & w1 & Hrun & Hcached & _); [by vm_compute|].
    exists context, w1. split; [exact Hrun | exact Hcached].
Defined.

(** C2 as claimed fails when the chat's query is not cached: after
    [onMutate] the entry has no first page at all. *)
Lemma optimistic_insert_absent_counterexample :
  ~ optimisticVisible sampleEnv (js "hi")
      (snd (onMutate sampleEnv (js "hi") emptyWorld)).
Proof.
  intros (m & ms & rest & Hvis & _). vm_compute in Hvis. discriminate.
Qed.

(** ** The updater of [onMutate] is neither pure nor total *)

(** C5, on the code: given an entry without pages (the entry the updaters
    themselves create when the query is not cached) the optimistic updater
    throws a [TypeError]; given an entry with a page it assigns to
    [messages] of the entry's own first page object, so the entry it was
    given reads differently afterwards. *)
Theorem optimisticUpdater_throws_and_mutates :
  infiniteQueries
    (snd (addMessage sampleEnv (FetchResolves true (Some helloStream)) emptyWorld))
    !! Some (queryInput sampleEnv)
  = Some (mkInfiniteData [] []) /\
  fst (optimisticUpdater sampleEnv (js "hi") (Some (mkInfiniteData [] [])) noPageWorld)
  = Throw TypeError /\
  let old := mkInfiniteData [0%nat] [None] in
  let w' := snd (optimisticUpdater sampleEnv (js "hi") (Some old) onePageWorld) in
  pageMessages (heap onePageWorld) old = [[m0]] /\
  pageMessages (heap w') old = [[ownMessage sampleEnv 0 (js "hi"); m0]].
Proof. vm_compute. done. Qed.

(** ** The rollback *)

(** [onError] leaves the heap and every infinite query as they are. *)
Lemma onError_keeps_infiniteQueries e context w :
  heap (rolledBack e context w) = heap w /\
  infiniteQueries (rolledBack e context w) = infiniteQueries w.
Proof. done. Qed.

(** C1, on the code: the request fails after the first chunk of the
    answer.  The input text is restored, but the chat's query still holds
    the own message and the partial answer: the snapshot was read from the
    infinite query without input, which is not cached, and was written to
    the plain query of [{ fileId }]. *)
Theorem rollback_misses_the_chat_query :
  let failed :=
    snd (addMessage sampleEnv (FetchResolves true (Some brokenStream)) onePageWorld) in
  cachedMessages sampleEnv onePageWorld = [m0] /\
  cachedMessages sampleEnv failed
  = [aiMessage sampleEnv 2 (js "Hel"); ownMessage sampleEnv 0 (js "hi"); m0] /\
  queries failed !! Some (fileInput sampleEnv) = Some [] /\
  message onePageWorld = js "hi" /\
  message failed = js "hi".
Proof. vm_compute. done. Qed.

(** ** Chunk boundaries *)

(** C6, on the code: the two bytes of ["é"] give ["é"] when they arrive in
    one chunk and two replacement characters when they arrive in two. *)
Theorem split_chunk_changes_text :
  let whole :=
    snd (addMessage sampleEnv (FetchResolves true (Some wholeStream)) onePageWorld) in
  let split :=
    snd (addMessage sampleEnv (FetchResolves true (Some splitStream)) onePageWorld) in
  mjoin (chunks wholeStream) = mjoin (chunks splitStream) /\
  (id <$> head (cachedMessages sampleEnv whole)) = Some aiResponse /\
  (text <$> head (cachedMessages sampleEnv whole)) = Some [0xE9] /\
  (id <$> head (cachedMessages sampleEnv split)) = Some aiResponse /\
  (text <$> head (cachedMessages sampleEnv split)) = Some [0xFFFD; 0xFFFD].
Proof. vm_compute. done. Qed.

(** ** The frame of a stream fold *)

Lemma streamUpdater_page e accResponse w old r rs :
  pages old = r :: rs ->
  r ∉ rs ->
  streamUpdater e accResponse (Some old) w
  = (Normal (mkInfiniteData (fresh (dom (heap w)) :: rs) (pageParams old)),
     mkWorld
       (<[fresh (dom (heap w)) :=
            mkPage (if isAiResponseCreated (heap w) old
                    then replaceText accResponse (messages (deref (heap w) r))
                    else aiMessage e (tick w) accResponse :: messages (deref (heap w) r))
                   (nextCursor (deref (heap w) r))]> (heap w))
       (infiniteQueries w) (queries w) (message w) (isLoading w) (backupMessage w)
       (if isAiResponseCreated (heap w) old then tick w else S (tick w))
       (effects w)).
Proof.
  intros Hpages Hnotin.
  unfold streamUpdater, get, mbind, M_bind. cbn. rewrite Hpages. cbn.
  rewrite bool_decide_eq_true_2 by done.
  unfold mbind, M_bind. cbn.
  destruct (isAiResponseCreated (heap w) old); cbn;
    rewrite updatedPages_other by (intros p Hp [= ->]; done); by destruct w.
Qed.

Lemma replaceText_others accResponse ms :
  List.filter (fun m => negb (isAi m)) (replaceText accResponse ms)
  = List.filter (fun m => negb (isAi m)) ms.
Proof.
  induction ms as [|m ms IH]; [done|].
  change (replaceText accResponse (m :: ms))
    with ((if isAi m
           then mkMessage (createdAt m) (id m) accResponse (isUserMessage m)
           else m) :: replaceText accResponse ms).
  cbn [List.filter]. rewrite IH.
  destruct (isAi m) eqn:Hai.
  - change (isAi (mkMessage (createdAt m) (id m) accResponse (isUserMessage m)))
      with (isAi m).
    by rewrite Hai.
  - by rewrite Hai.
Qed.

Lemma deref_insert_eq (h : gmap ref Page) r p : deref (<[r := p]> h) r = p.
Proof. unfold deref. by rewrite lookup_insert_eq. Qed.

Lemma deref_insert_ne (h : gmap ref Page) r r' p :
  r <> r' -> deref (<[r := p]> h) r' = deref h r'.
Proof. intros Hne. unfold deref. by rewrite lookup_insert_ne. Qed.

Lemma deref_subseteq (h h' : gmap ref Page) r :
  h ⊆ h' -> is_Some (h !! r) -> deref h' r = deref h r.
Proof.
  intros Hsub [p Hp]. unfold deref.
  by rewrite (lookup_weaken _ _ _ _ Hp Hsub), Hp.
Qed.

(** ** The single pending record *)

Lemma filter_isAi_nil ms :
  List.filter isAi ms = [] <-> forall m, m ∈ ms -> id m <> aiResponse.
Proof.
  induction ms as [|m ms IH]; cbn [List.filter].
  - split; [|done]. intros _ m Hm. by apply elem_of_nil in Hm.
  - destruct (isAi m) eqn:Hai; unfold isAi in Hai.
    + apply bool_decide_eq_true in Hai. split; [done|].
      intros H. exfalso. apply (H m); [left | done].
    + apply bool_decide_eq_false in Hai. rewrite IH. split.
      * intros H m' [->|Hm']%elem_of_cons; auto.
      * intros H m' Hm'. apply H. by right.
Qed.

Lemma hasAiResponse_false ms :
  hasAiResponse ms = false <-> List.filter isAi ms = [].
Proof.
  unfold hasAiResponse. induction ms as [|m ms IH]; cbn [existsb List.filter]; [done|].
  fold (isAi m). destruct (isAi m); cbn; [done | exact IH].
Qed.

Lemma replaceText_count accResponse ms :
  length (List.filter isAi (replaceText accResponse ms))
  = length (List.filter isAi ms).
Proof.
  induction ms as [|m ms IH]; [done|].
  change (replaceText accResponse (m :: ms))
    with ((if isAi m
           then mkMessage (createdAt m) (id m) accResponse (isUserMessage m)
           else m) :: replaceText accResponse ms).
  cbn [List.filter].
  destruct (isAi m) eqn:Hai.
  - change (isAi (mkMessage (createdAt m) (id m) accResponse (isUserMessage m)))
      with (isAi m).
    rewrite Hai. cbn. by rewrite IH.
  - by rewrite Hai.
Qed.

Lemma filter_isAi_concat_nil (pm : list (list Message)) :
  Forall (fun ms => List.filter isAi ms = []) pm ->
  List.filter isAi (concat pm) = [].
Proof.
  induction 1 as [|ms pm Hms _ IH]; [done|].
  cbn [concat]. by rewrite List.filter_app, Hms, IH.
Qed.

Lemma singlePending_nil h data : pageMessages h data = [] -> singlePending h data.
Proof.
  intros Hpm. unfold singlePending. rewrite Hpm. split; [cbn; lia|].
  intros i ms m Hi. by rewrite lookup_nil in Hi.
Qed.

Lemma singlePending_cons h data first rest :
  pageMessages h data = first :: rest ->
  singlePending h data <->
  (length (List.filter isAi first) <= 1)%nat /\
  Forall (fun ms => List.filter isAi ms = []) rest.
Proof.
  intros Hpm. unfold singlePending. rewrite Hpm. cbn [concat]. split.
  - intros [Hcount Hfirst].
    assert (Hrest : Forall (fun ms => List.filter isAi ms = []) rest).
    { apply Forall_lookup. intros i ms Hi. apply filter_isAi_nil. intros m Hm Hid.
      by specialize (Hfirst (S i) ms m Hi Hm Hid). }
    split; [|done].
    rewrite List.filter_app, length_app in Hcount. lia.
  - intros [Hcount Hrest]. split.
    + rewrite List.filter_app, (filter_isAi_concat_nil rest Hrest), app_nil_r. done.
    + intros [|i] ms m Hi Hm Hid; [done|]. exfalso.
      cbn in Hi. eapply Forall_lookup_1 in Hrest; [|exact Hi].
      by eapply filter_isAi_nil in Hrest.
Qed.

Lemma isAiResponseCreated_pageMessages h data :
  isAiResponseCreated h data = existsb hasAiResponse (pageMessages h data).
Proof.
  unfold isAiResponseCreated, pageMessages.
  induction (pages data) as [|r rs IH]; [done|]. cbn. by rewrite IH.
Qed.

Lemma existsb_hasAiResponse_false (pm : list (list Message)) :
  Forall (fun ms => List.filter isAi ms = []) pm ->
  existsb hasAiResponse pm = false.
Proof.
  induction 1 as [|ms pm Hms _ IH]; [done|].
  cbn. apply hasAiResponse_false in Hms. by rewrite Hms, IH.
Qed.

Lemma pageMessages_cons h data r rs :
  pages data = r :: rs ->
  pageMessages h data
  = messages (deref h r) :: ((fun page => messages (deref h page)) <$> rs).
Proof. intros Hpages. unfold pageMessages. by rewrite Hpages. Qed.

Lemma chatInv_same e w w' :
  heap w' = heap w -> infiniteQueries w' = infiniteQueries w ->
  chatInv e w -> chatInv e w'.
Proof. unfold chatInv. intros -> ->. done. Qed.

Lemma streamWrite_noPage e accResponse w old :
  infiniteQueries w !! Some (queryInput e) = Some old ->
  pages old = [] ->
  setInfiniteData (queryInput e) (streamUpdater e accResponse) w
  = (Normal tt,
     mkWorld (heap w)
       (<[Some (queryInput e) := mkInfiniteData [] (pageParams old)]> (infiniteQueries w))
       (queries w) (message w) (isLoading w) (backupMessage w) (tick w)
       (effects w ++ [ESetInfiniteData (queryInput e)])).
Proof.
  intros Hold Hpages.
  unfold setInfiniteData, streamUpdater, emit, modify, get, mbind, M_bind.
  cbn. rewrite Hold. cbn. rewrite Hpages. reflexivity.
Qed.

Lemma streamWrite_absent e accResponse w :
  infiniteQueries w !! Some (queryInput e) = None ->
  setInfiniteData (queryInput e) (streamUpdater e accResponse) w
  = (Normal tt,
     mkWorld (heap w)
       (<[Some (queryInput e) := mkInfiniteData [] []]> (infiniteQueries w))
       (queries w) (message w) (isLoading w) (backupMessage w) (tick w)
       (effects w ++ [ESetInfiniteData (queryInput e)])).
Proof.
  intros Hold.
  unfold setInfiniteData, streamUpdater, emit, modify, get, mbind, M_bind.
  cbn. by rewrite Hold.
Qed.

Lemma chatInv_stream e accResponse w r w' :
  chatInv e w ->
  setInfiniteData (queryInput e) (streamUpdater e accResponse) w = (r, w') ->
  chatInv e w'.
Proof.
  intros Hinv Hstep.
  destruct (infiniteQueries w !! Some (queryInput e)) as [old|] eqn:Hold.
  - destruct (Hinv old Hold) as [[Hnodup Halloc] Hsingle].
    destruct (pages old) as [|page rs] eqn:Hpages.
    + rewrite (streamWrite_noPage e accResponse w old Hold Hpages) in Hstep.
      injection Hstep as _ <-.
      intros data Hdata. cbn in Hdata. rewrite lookup_insert_eq in Hdata.
      injection Hdata as <-. split.
      * split; [apply NoDup_nil_2|]. intros r' Hr'. by apply elem_of_nil in Hr'.
      * by apply singlePending_nil.
    + apply NoDup_cons in Hnodup as Hnodup'. destruct Hnodup' as [Hnotin Hnodup'].
      rewrite (streamWrite_page e accResponse w old page rs Hold Hpages Hnotin) in Hstep.
      injection Hstep as _ <-.
      pose proof (pageMessages_cons (heap w) old page rs Hpages) as Hpm.
      apply (singlePending_cons _ _ _ _ Hpm) in Hsingle as [Hcount Hrest].
      assert (Hfresh : fresh (dom (heap w)) ∉ rs).
      { intros Hin. apply (is_fresh (dom (heap w))).
        apply elem_of_dom, Halloc. by right. }
      intros data Hdata. cbn in Hdata. rewrite lookup_insert_eq in Hdata.
      injection Hdata as <-. cbn [heap]. split.
      * split; [apply NoDup_cons; by split|]. cbn [pages]. intros r' Hr'.
        apply lookup_insert_is_Some'.
        apply elem_of_cons in Hr' as [->|Hr']; [by left|].
        right. apply Halloc. by right.
      * eapply singlePending_cons; [by apply pageMessages_cons|].
        rewrite deref_insert_eq. cbn [messages].
        rewrite isAiResponseCreated_pageMessages, Hpm. cbn [existsb].
        rewrite (existsb_hasAiResponse_false _ Hrest), orb_false_r.
        split.
        -- destruct (hasAiResponse (messages (deref (heap w) page))) eqn:Hhas.
           ++ by rewrite replaceText_count.
           ++ apply hasAiResponse_false in Hhas. cbn [List.filter]. rewrite Hhas.
              destruct (isAi (aiMessage e (tick w) accResponse)); cbn; lia.
        -- erewrite list_fmap_ext; [exact Hrest|].
           intros i r' Hi. cbn. rewrite deref_insert_ne; [done|].
           intros <-. apply Hfresh. by eapply list_elem_of_lookup_2.
  - rewrite (streamWrite_absent e accResponse w Hold) in Hstep.
    injection Hstep as _ <-.
    intros data Hdata. cbn in Hdata. rewrite lookup_insert_eq in Hdata.
    injection Hdata as <-. split.
    + split; [apply NoDup_nil_2|]. intros r' Hr'. by apply elem_of_nil in Hr'.
    + by apply singlePending_nil.
Qed.

(** The invariant is stated for ids as [crypto.randomUUID()] makes them:
    36 characters, so never the reserved id. *)
Section SinglePending.

Context (e : Env).
Hypothesis uuid_format : forall n, length (randomUUID e n) = 36%nat.

Lemma ownMessage_not_ai t text : isAi (ownMessage e t text) = false.
Proof.
  unfold isAi. apply bool_decide_eq_false. cbn. intros Heq.
  pose proof (uuid_format (S t)) as Hlen. rewrite Heq in Hlen.
  vm_compute in Hlen. lia.
Qed.

Lemma chatInv_optimistic text w r w' :
  chatInv e w ->
  setInfiniteData (queryInput e) (optimisticUpdater e text) w = (r, w') ->
  chatInv e w'.
Proof.
  intros Hinv Hstep.
  destruct (infiniteQueries w !! Some (queryInput e)) as [old|] eqn:Hold.
  - destruct (pages old) as [|page rs] eqn:Hpages.
    + rewrite (optimisticWrite_noPage e text w old Hold Hpages) in Hstep.
      injection Hstep as _ <-. by eapply chatInv_same.
    + rewrite (optimisticWrite_page e text w old page rs Hold Hpages) in Hstep.
      injection Hstep as _ <-.
      destruct (Hinv old Hold) as [[Hnodup Halloc] Hsingle].
      rewrite Hpages in Hnodup, Halloc.
      apply NoDup_cons in Hnodup as Hnodup'. destruct Hnodup' as [Hnotin _].
      apply (singlePending_cons _ _ _ _ (pageMessages_cons _ _ _ _ Hpages)) in Hsingle
        as [Hcount Hrest].
      intros data Hdata. cbn in Hdata. rewrite lookup_insert_eq in Hdata.
      injection Hdata as <-. cbn [heap]. split.
      * split; [done|]. cbn [pages]. intros r' Hr'.
        apply lookup_insert_is_Some'. right. by apply Halloc.
      * eapply singlePending_cons; [by apply pageMessages_cons|].
        rewrite deref_insert_eq. cbn [messages List.filter].
        rewrite (ownMessage_not_ai (tick w) text).
        split; [done|].
        erewrite list_fmap_ext; [exact Hrest|].
        intros i r' Hi. cbn. rewrite deref_insert_ne; [done|].
        intros ->. apply Hnotin. by eapply list_elem_of_lookup_2.
  - rewrite (optimisticWrite_absent e text w Hold) in Hstep.
    injection Hstep as _ <-.
    intros data Hdata. cbn in Hdata. rewrite lookup_insert_eq in Hdata.
    injection Hdata as <-. split.
    + split; [apply NoDup_nil_2|]. intros r' Hr'. by apply elem_of_nil in Hr'.
    + by apply singlePending_nil.
Qed.

Lemma chatInv_step w w' : chatInv e w -> step e w w' -> chatInv e w'.
Proof.
  intros Hinv Hstep. destruct Hstep as
    [text w r w' H | accResponse w r w' H | data w r w' H
    | value w r w' H | value w r w' H | value w | ev w r w' H].
  - by eapply chatInv_optimistic.
  - by eapply chatInv_stream.
  - injection H as _ <-. by eapply chatInv_same.
  - injection H as _ <-. by eapply chatInv_same.
  - injection H as _ <-. by eapply chatInv_same.
  - by eapply chatInv_same.
  - injection H as _ <-. by eapply chatInv_same.
Qed.

(** C8: from a world in which the chat's query (if cached) has distinct,
    allocated pages and at most one "ai-response" record, located in its
    first page, every world the mutation's steps lead to is of that kind
    again; ids made by [crypto.randomUUID()] are 36 characters long. *)
Theorem single_pending_invariant w w' :
  chatInv e w ->
  rtc (step e) w w' ->
  chatInv e w'.
Proof.
  intros Hinv Hsteps. induction Hsteps as [w | w w1 w' Hstep _ IH]; [done|].
  apply IH. by eapply chatInv_step.
Qed.

End SinglePending.

(** ** The frame of a stream fold, record by record *)

(** C10: applied to an entry with at least one page (its pages distinct,
    allocated objects, at most one pending record and none outside the
    first page), the stream updater returns the entry with a new first
    page object and the same other pages and [pageParams]; no existing
    object is changed, so every other page reads as before, and the new
    first page keeps the cursor of the old one.  When the first page has
    no record with the id "ai-response", its new messages are the record
    [{createdAt: now, id: "ai-response", text: accResponse,
    isUserMessage: false}] followed by the old ones.  When it has one,
    the new messages are as many as the old ones and the same position by
    position, except that a record with that id has [accResponse] as its
    text (and its [createdAt], [id] and flag as before). *)
Theorem stream_fold_frame e accResponse w old r rs :
  pages old = r :: rs ->
  wfData (heap w) old ->
  singlePending (heap w) old ->
  exists r' w',
    streamUpdater e accResponse (Some old) w
    = (Normal (mkInfiniteData (r' :: rs) (pageParams old)), w') /\
    heap w ⊆ heap w' /\
    heap w !! r' = None /\
    deref (heap w') <$> rs = deref (heap w) <$> rs /\
    nextCursor (deref (heap w') r') = nextCursor (deref (heap w) r) /\
    ((forall m, m ∈ messages (deref (heap w) r) -> id m <> js "ai-response") ->
     messages (deref (heap w') r')
     = mkMessage (toISOString e (tick w)) (js "ai-response") accResponse false
         :: messages (deref (heap w) r)) /\
    ((exists m, m ∈ messages (deref (heap w) r) /\ id m = js "ai-response") ->
     length (messages (deref (heap w') r')) = length (messages (deref (heap w) r)) /\
     forall (i : nat) m,
       messages (deref (heap w) r) !! i = Some m ->
       messages (deref (heap w') r') !! i
       = Some (if bool_decide (id m = js "ai-response")
               then mkMessage (createdAt m) (id m) accResponse (isUserMessage m)
               else m)).
Proof.
  intros Hpages [Hnodup Halloc] Hsingle. rewrite Hpages in Hnodup, Halloc.
  apply NoDup_cons in Hnodup as [Hnotin _].
  pose proof (pageMessages_cons (heap w) old r rs Hpages) as Hpm.
  apply (singlePending_cons _ _ _ _ Hpm) in Hsingle as [_ Hrest].
  rewrite (streamUpdater_page e accResponse w old r rs Hpages Hnotin).
  do 2 eexists. split; [reflexivity|]. cbn [heap].
  split; [apply heap_alloc_subseteq|].
  split; [apply not_elem_of_dom, is_fresh|].
  split.
  { apply list_fmap_ext. intros i page Hi.
    apply deref_subseteq; [apply heap_alloc_subseteq|].
    apply Halloc. right. by eapply list_elem_of_lookup_2. }
  rewrite !deref_insert_eq. cbn [messages nextCursor].
  split; [done|].
  rewrite isAiResponseCreated_pageMessages, Hpm. cbn [existsb].
  rewrite (existsb_hasAiResponse_false _ Hrest), orb_false_r.
  split.
  - intros Hnone.
    assert (Hhas : hasAiResponse (messages (deref (heap w) r)) = false)
      by (by apply hasAiResponse_false, filter_isAi_nil).
    by rewrite Hhas.
  - intros (m & Hm & Hid).
    destruct (hasAiResponse (messages (deref (heap w) r))) eqn:Hhas.
    + split; [apply length_fmap|].
      intros i m' Hi. unfold replaceText. by rewrite list_lookup_fmap, Hi.
    + apply hasAiResponse_false in Hhas.
      by destruct (proj1 (filter_isAi_nil _) Hhas m Hm).
Qed.

Lemma stream_fold_frame_witness :
  (exists r' w',
      streamUpdater sampleEnv (js "Hel") (Some (mkInfiniteData [0%nat] [None])) onePageWorld
      = (Normal (mkInfiniteData [r'] [None]), w') /\
      messages (deref (heap w') r')
      = [mkMessage (js "2024-01-01T00:00:00.000Z") (js "ai-response") (js "Hel") false;
         m0]) /\
  (exists r' w',
      streamUpdater sampleEnv (js "Hello!") (Some (mkInfiniteData [0%nat] [None])) pendingWorld
      = (Normal (mkInfiniteData [r'] [None]), w') /\
      messages (deref (heap w') r') !! 0%nat
      = Some (mkMessage (js "2023-12-31T23:59:59.500Z") (js "ai-response")
                (js "Hello!") false) /\
      messages (deref (heap w') r') !! 1%nat = Some m0 /\
      length (messages (deref (heap w') r')) = 2%nat).
Proof.
  split.
  - destruct (stream_fold_frame sampleEnv (js "Hel") onePageWorld
                (mkInfiniteData [0%nat] [None]) 0%nat [])
      as (r' & w' & Hrun & _ & _ & _ & _ & Hcreate & _).
    + reflexivity.
    + split; [apply NoDup_singleton|].
      intros r Hr. apply list_elem_of_singleton in Hr as ->.
      eexists. vm_compute. reflexivity.
    + eapply singlePending_cons; [vm_compute; reflexivity|].
      split; [vm_compute; lia | constructor].
    + exists r', w'. split; [exact Hrun|]. apply Hcreate.
      intros m Hm. vm_compute in Hm.
      apply list_elem_of_singleton in Hm as ->. vm_compute. discriminate.
  - destruct (stream_fold_frame sampleEnv (js "Hello!") pendingWorld
                (mkInfiniteData [0%nat] [None]) 0%nat [])
      as (r' & w' & Hrun & _ & _ & _ & _ & _ & Hreplace).
    + reflexivity.
    + split; [apply NoDup_singleton|].
      intros r Hr. apply list_elem_of_singleton in Hr as ->.
      eexists. vm_compute. reflexivity.
    + eapply singlePending_cons; [vm_compute; reflexivity|].
      split; [vm_compute; lia | constructor].
    + destruct Hreplace as [Hlen Hlookup].
      { exists staleAnswer. split; [|reflexivity]. vm_compute. left. }
      exists r', w'. split; [exact Hrun|].
      split; [exact (Hlookup 0%nat staleAnswer eq_refl)|].
      split; [exact (Hlookup 1%nat m0 eq_refl) | exact Hlen].
Defined.

(** ** The mutation runs by steps *)

Lemma stepwise_ret {A} e (a : A) : stepwise e (mret a : M A).
Proof. intros w. apply rtc_refl. Qed.

Lemma stepwise_throw {A} e err : stepwise e (throw err : M A).
Proof. intros w. apply rtc_refl. Qed.

Lemma stepwise_get e : stepwise e get.
Proof. intros w. apply rtc_refl. Qed.

Lemma stepwise_bind {A B} e (c : M A) (k : A -> M B) :
  stepwise e c -> (forall a, stepwise e (k a)) -> stepwise e (c ≫= k).
Proof.
  intros Hc Hk w. unfold mbind, M_bind. specialize (Hc w).
  destruct (c w) as [[a|err] w1]; cbn in *; [|done].
  etrans; [exact Hc | apply Hk].
Qed.

Lemma stepwise_tryCatch {A} e (body : M A) (handler : Exn -> M A) :
  stepwise e body -> (forall err, stepwise e (handler err)) ->
  stepwise e (tryCatch body handler).
Proof.
  intros Hc Hk w. unfold tryCatch. specialize (Hc w).
  destruct (body w) as [[a|err] w1]; cbn in *; [done|].
  etrans; [exact Hc | apply Hk].
Qed.

Lemma stepwise_emit e ev : stepwise e (emit ev).
Proof. intros w. apply rtc_once. by eapply (step_emit e ev w (Normal tt)). Qed.

Lemma stepwise_setMessage e value : stepwise e (setMessage value).
Proof.
  intros w. apply rtc_once.
  eapply (step_setMessage e value w (fst (setMessage value w))).
  by destruct (setMessage value w).
Qed.

Lemma stepwise_setIsLoading e value : stepwise e (setIsLoading value).
Proof.
  intros w. apply rtc_once.
  eapply (step_setIsLoading e value w (fst (setIsLoading value w))).
  by destruct (setIsLoading value w).
Qed.

Lemma stepwise_setData e data : stepwise e (setData (fileInput e) data).
Proof.
  intros w. apply rtc_once.
  eapply (step_rollback e data w (fst (setData (fileInput e) data w))).
  by destruct (setData (fileInput e) data w).
Qed.

Lemma stepwise_optimistic e text :
  stepwise e (setInfiniteData (queryInput e) (optimisticUpdater e text)).
Proof.
  intros w. apply rtc_once.
  eapply (step_optimistic e text w
            (fst (setInfiniteData (queryInput e) (optimisticUpdater e text) w))).
  by destruct (setInfiniteData (queryInput e) (optimisticUpdater e text) w).
Qed.

Lemma stepwise_stream e accResponse :
  stepwise e (setInfiniteData (queryInput e) (streamUpdater e accResponse)).
Proof.
  intros w. apply rtc_once.
  eapply (step_stream e accResponse w
            (fst (setInfiniteData (queryInput e) (streamUpdater e accResponse) w))).
  by destruct (setInfiniteData (queryInput e) (streamUpdater e accResponse) w).
Qed.

Lemma stepwise_onMutate e text : stepwise e (onMutate e text).
Proof.
  unfold onMutate, cancel, getInfiniteData.
  apply stepwise_bind; [intros w; apply rtc_once, step_backup|]. intros _.
  apply stepwise_bind; [apply stepwise_setMessage|]. intros _.
  apply stepwise_bind; [apply stepwise_emit|]. intros _.
  apply stepwise_bind.
  { apply stepwise_bind; [apply stepwise_emit|]. intros _.
    apply stepwise_bind; [apply stepwise_get|]. intros w. apply stepwise_ret. }
  intros previous.
  apply stepwise_bind; [apply stepwise_optimistic|]. intros _.
  apply stepwise_bind; [apply stepwise_setIsLoading|]. intros _.
  apply stepwise_bind; [apply stepwise_get|]. intros w. apply stepwise_ret.
Qed.

Lemma stepwise_mutationFn e text response : stepwise e (mutationFn e text response).
Proof.
  unfold mutationFn. apply stepwise_bind; [apply stepwise_emit|]. intros _.
  destruct response as [|[] body]; cbn;
    first [apply stepwise_throw | apply stepwise_ret].
Qed.

Lemma stepwise_readLoop e accResponse reads last :
  stepwise e (readLoop e accResponse reads last).
Proof.
  revert accResponse. induction reads as [|value rest IH]; intros accResponse.
  - destruct last; cbn [readLoop]; [apply stepwise_stream | apply stepwise_throw].
  - cbn [readLoop]. apply stepwise_bind; [apply stepwise_stream|]. intros _. apply IH.
Qed.

Lemma stepwise_onSuccess e stream : stepwise e (onSuccess e stream).
Proof.
  unfold onSuccess, toast. apply stepwise_bind; [apply stepwise_setIsLoading|].
  intros _. destruct stream; [apply stepwise_readLoop | apply stepwise_emit].
Qed.

Lemma stepwise_onError e context : stepwise e (onError e context).
Proof.
  unfold onError. apply stepwise_bind; [apply stepwise_get|]. intros w.
  apply stepwise_bind; [apply stepwise_setMessage|]. intros _.
  apply stepwise_setData.
Qed.

Lemma stepwise_onSettled e : stepwise e (onSettled e).
Proof.
  unfold onSettled, invalidate.
  apply stepwise_bind; [apply stepwise_setIsLoading|]. intros _.
  apply stepwise_emit.
Qed.

Lemma stepwise_failed e context err :
  stepwise e ((onError e context;; onSettled e;; throw err) : M unit).
Proof.
  apply stepwise_bind; [apply stepwise_onError|]. intros _.
  apply stepwise_bind; [apply stepwise_onSettled|]. intros _.
  apply stepwise_throw.
Qed.

Lemma stepwise_execute e text response : stepwise e (execute e text response).
Proof.
  intros w. unfold execute.
  pose proof (stepwise_onMutate e text w) as Hm.
  destruct (onMutate e text w) as [[context|err] w1]; cbn in Hm.
  - etrans; [exact Hm|]. apply stepwise_tryCatch.
    + apply stepwise_bind; [apply stepwise_mutationFn|]. intros data.
      apply stepwise_bind; [apply stepwise_onSuccess|]. intros _.
      apply stepwise_onSettled.
    + intros err. apply stepwise_failed.
  - etrans; [exact Hm|]. apply stepwise_failed.
Qed.

(** Every world a call of [addMessage] ends in is reached by steps. *)
Lemma stepwise_addMessage e response : stepwise e (addMessage e response).
Proof.
  unfold addMessage, sendMessage.
  apply stepwise_bind; [apply stepwise_get|]. intros w.
  apply stepwise_tryCatch; [apply stepwise_execute|]. intros _. apply stepwise_ret.
Qed.

Lemma chatInv_onePageWorld : chatInv sampleEnv onePageWorld.
Proof.
  intros data Hdata. vm_compute in Hdata. injection Hdata as <-. split.
  - split; [apply NoDup_singleton|].
    intros r Hr. apply list_elem_of_singleton in Hr as ->.
    eexists. vm_compute. reflexivity.
  - eapply singlePending_cons; [vm_compute; reflexivity|].
    split; [vm_compute; lia | constructor].
Qed.

Lemma single_pending_invariant_witness :
  chatInv sampleEnv
    (snd (addMessage sampleEnv (FetchResolves true (Some helloStream)) onePageWorld)).
Proof.
  apply (single_pending_invariant sampleEnv (fun n => eq_refl) onePageWorld).
  - apply chatInv_onePageWorld.
  - apply stepwise_addMessage.
Defined.

(** ** What the read loop leaves in the pending record *)

Lemma replaceText_filter accResponse ms :
  List.filter isAi (replaceText accResponse ms)
  = (fun m => mkMessage (createdAt m) (id m) accResponse (isUserMessage m))
      <$> List.filter isAi ms.
Proof.
  induction ms as [|m ms IH]; [done|].
  change (replaceText accResponse (m :: ms))
    with ((if isAi m
           then mkMessage (createdAt m) (id m) accResponse (isUserMessage m)
           else m) :: replaceText accResponse ms).
  cbn [List.filter].
  destruct (isAi m) eqn:Hai.
  - change (isAi (mkMessage (createdAt m) (id m) accResponse (isUserMessage m)))
      with (isAi m).
    rewrite Hai. cbn. by rewrite IH.
  - by rewrite Hai.
Qed.

Lemma streamWrite_pending e accResponse w old r rs :
  chatInv e w ->
  infiniteQueries w !! Some (queryInput e) = Some old ->
  pages old = r :: rs ->
  exists w' m,
    setInfiniteData (queryInput e) (streamUpdater e accResponse) w = (Normal tt, w') /\
    infiniteQueries w' !! Some (queryInput e)
    = Some (mkInfiniteData (fresh (dom (heap w)) :: rs) (pageParams old)) /\
    List.filter isAi (cachedMessages e w') = [m] /\
    text m = accResponse.
Proof.
  intros Hinv Hold Hpages.
  destruct (Hinv old Hold) as [[Hnodup Halloc] Hsingle].
  rewrite Hpages in Hnodup, Halloc.
  apply NoDup_cons in Hnodup as [Hnotin _].
  pose proof (pageMessages_cons (heap w) old r rs Hpages) as Hpm.
  apply (singlePending_cons _ _ _ _ Hpm) in Hsingle as [Hcount Hrest].
  assert (Hfresh : fresh (dom (heap w)) ∉ rs).
  { intros Hin. apply (is_fresh (dom (heap w))).
    apply elem_of_dom, Halloc. by right. }
  rewrite (streamWrite_page e accResponse w old r rs Hold Hpages Hnotin).
  assert (Hcached : forall p h' iq q msg l b t ef,
    h' = <[fresh (dom (heap w)) := p]> (heap w) ->
    iq = <[Some (queryInput e) :=
             mkInfiniteData (fresh (dom (heap w)) :: rs) (pageParams old)]>
           (infiniteQueries w) ->
    List.filter isAi (cachedMessages e (mkWorld h' iq q msg l b t ef))
    = List.filter isAi (messages p)).
  { intros p h' iq q msg l b t ef -> ->.
    unfold cachedMessages, cachedPages. cbn [infiniteQueries heap].
    rewrite lookup_insert_eq. cbn [fmap option_fmap option_map].
    erewrite pageMessages_cons by reflexivity.
    rewrite deref_insert_eq. cbn [concat].
    rewrite List.filter_app.
    rewrite (filter_isAi_concat_nil _); [by rewrite app_nil_r|].
    erewrite list_fmap_ext; [exact Hrest|].
    intros i r' Hi. cbn. rewrite deref_insert_ne; [done|].
    intros <-. apply Hfresh. by eapply list_elem_of_lookup_2. }
  rewrite isAiResponseCreated_pageMessages, Hpm. cbn [existsb].
  rewrite (existsb_hasAiResponse_false _ Hrest), orb_false_r.
  destruct (hasAiResponse (messages (deref (heap w) r))) eqn:Hhas.
  - destruct (List.filter isAi (messages (deref (heap w) r))) as [|m [|m' l]] eqn:Hfilter.
    + apply hasAiResponse_false in Hfilter. congruence.
    + do 2 eexists. split; [reflexivity|]. cbn [infiniteQueries].
      split; [by rewrite lookup_insert_eq|].
      split; [erewrite Hcached by reflexivity; cbn [messages];
              by rewrite replaceText_filter, Hfilter | reflexivity].
    + cbn in Hcount. lia.
  - apply hasAiResponse_false in Hhas.
    do 2 eexists. split; [reflexivity|]. cbn [infiniteQueries].
    split; [by rewrite lookup_insert_eq|].
    split; [erewrite Hcached by reflexivity; cbn [messages List.filter];
            by rewrite Hhas | reflexivity].
Qed.

(** With the chat's query cached with a page, a stream that closes leaves
    exactly one "ai-response" record, and its text is the decoded chunks
    one after the other, each chunk decoded on its own. *)
Lemma readLoop_concatenates_decoded_chunks e reads accResponse w old r rs :
  chatInv e w ->
  infiniteQueries w !! Some (queryInput e) = Some old ->
  pages old = r :: rs ->
  exists w' m,
    readLoop e accResponse reads Closed w = (Normal tt, w') /\
    List.filter isAi (cachedMessages e w') = [m] /\
    text m = accResponse ++ mjoin ((fun value => decode (Some value)) <$> reads).
Proof.
  revert accResponse w old r. induction reads as [|value rest IH];
    intros accResponse w old r Hinv Hold Hpages.
  - cbn [readLoop].
    destruct (streamWrite_pending e (accResponse ++ decode None) w old r rs
                Hinv Hold Hpages) as (w' & m & Hwrite & _ & Hfilter & Htext).
    exists w', m. split; [done|]. split; [done|]. by rewrite Htext.
  - cbn [readLoop].
    destruct (streamWrite_pending e (accResponse ++ decode (Some value)) w old r rs
                Hinv Hold Hpages) as (w1 & m1 & Hwrite & Hentry & _ & _).
    assert (Hinv1 : chatInv e w1) by (by eapply chatInv_stream).
    destruct (IH (accResponse ++ decode (Some value)) w1 _ _ Hinv1 Hentry eq_refl)
      as (w' & m & Hloop & Hfilter & Htext).
    exists w', m. split; [|split; [done|]].
    + erewrite mbind_Normal by exact Hwrite. exact Hloop.
    + rewrite Htext. cbn. by rewrite <- app_assoc.
Qed.

(** * Further properties *)

(** ** The calls of a mutation *)

Lemma fetches_app l1 l2 : fetches (l1 ++ l2) = (fetches l1 + fetches l2)%nat.
Proof. unfold fetches. by rewrite List.filter_app, length_app. Qed.

Lemma fetches_writes n input :
  fetches (replicate n (ESetInfiniteData input)) = 0%nat.
Proof. unfold fetches. by rewrite filter_writes. Qed.

Lemma execute_calls e text response w context w1 :
  onMutate e text w = (Normal context, w1) ->
  exists r w',
    execute e text response w = (r, w') /\
    r = match responseError response with
        | None => Normal tt
        | Some err => Throw err
        end /\
    effects w' = effects w ++ mutateCalls e ++ [EFetch (fileId e) text]
                 ++ callsAfterDispatch e text context response.
Proof.
  intros Hm.
  destruct (onMutate_returns _ _ _ _ _ Hm) as (_ & _ & Hb1 & _ & He1).
  destruct response as [|[] [stream|]].
  - unfold execute, tryCatch. rewrite Hm.
    erewrite (mbind_Throw (mutationFn e text _))
      by (rewrite mutationFn_run; reflexivity).
    rewrite failed_run. do 2 eexists. split; [reflexivity|]. split; [done|].
    cbn. rewrite Hb1, He1. by rewrite <- !app_assoc.
  - destruct (execute_stream e text stream w context w1 Hm)
      as (w2 & _ & (_ & _ & _ & Hb2 & He2) & Hex).
    rewrite Hex. unfold responseError, callsAfterDispatch.
    destruct (ending stream); do 2 eexists; (split; [reflexivity|]);
      (split; [done|]); cbn -[replicate]; rewrite He2; cbn -[replicate];
      rewrite ?Hb2; cbn -[replicate]; rewrite ?Hb1, He1;
      by rewrite <- !app_assoc.
  - rewrite (execute_noBody e text w context w1 Hm).
    do 2 eexists. split; [reflexivity|]. split; [done|].
    cbn -[js]. rewrite He1. by rewrite <- !app_assoc.
  - unfold execute, tryCatch. rewrite Hm.
    erewrite (mbind_Throw (mutationFn e text _))
      by (rewrite mutationFn_run; reflexivity).
    rewrite failed_run. do 2 eexists. split; [reflexivity|]. split; [done|].
    cbn. rewrite Hb1, He1. by rewrite <- !app_assoc.
  - unfold execute, tryCatch. rewrite Hm.
    erewrite (mbind_Throw (mutationFn e text _))
      by (rewrite mutationFn_run; reflexivity).
    rewrite failed_run. do 2 eexists. split; [reflexivity|]. split; [done|].
    cbn. rewrite Hb1, He1. by rewrite <- !app_assoc.
Qed.

(** X1: when the updater of [onMutate] returns, a mutation makes these
    calls and no others, in this order: those of [onMutate], the request
    with the file id and the submitted text, and then, by response, the
    calls of [onSuccess], of [onError] and of [onSettled]; [mutate]
    itself returns normally. *)
Theorem mutation_calls e text response w context w1 :
  onMutate e text w = (Normal context, w1) ->
  exists w',
    sendMessage e text response w = (Normal tt, w') /\
    effects w' = effects w ++ mutateCalls e ++ [EFetch (fileId e) text]
                 ++ callsAfterDispatch e text context response.
Proof.
  intros Hm.
  destruct (execute_calls e text response w context w1 Hm) as (r & w' & Hex & _ & He).
  exists w'. split; [by eapply sendMessage_of_execute | done].
Qed.

Lemma mutation_calls_witness :
  exists w',
    sendMessage sampleEnv (js "hi") (FetchResolves true (Some brokenStream)) onePageWorld
    = (Normal tt, w') /\
    effects w'
    = [ESetMessage []; ECancel; EGetInfiniteData None;
       ESetInfiniteData (queryInput sampleEnv); ESetIsLoading true;
       EFetch (js "f1") (js "hi"); ESetIsLoading false;
       ESetInfiniteData (queryInput sampleEnv);
       ESetMessage (js "hi"); ESetData (fileInput sampleEnv) [];
       ESetIsLoading false; EInvalidate (fileInput sampleEnv)].
Proof.
  assert (Hm : onMutate sampleEnv (js "hi") onePageWorld
               = (Normal (mkContext []), snd (onMutate sampleEnv (js "hi") onePageWorld)))
    by (vm_compute; reflexivity).
  destruct (mutation_calls sampleEnv (js "hi") (FetchResolves true (Some brokenStream))
              onePageWorld _ _ Hm) as (w' & Hrun & He).
  exists w'. split; [exact Hrun | exact He].
Defined.

(** X2: a mutation whose [onMutate] returned sends exactly one request,
    whatever the response (nothing is retried); it notifies once when the
    response is ok without a body and never otherwise; it rolls back once
    when the request or the stream fails and never otherwise. *)
Theorem one_request_per_mutation e text response w context w1 :
  onMutate e text w = (Normal context, w1) ->
  exists w',
    sendMessage e text response w = (Normal tt, w') /\
    fetches (effects w') = S (fetches (effects w)) /\
    notifications (effects w')
    = (notifications (effects w)
       + match response with FetchResolves true None => 1 | _ => 0 end)%nat /\
    rollbacks (effects w')
    = (rollbacks (effects w)
       + match responseError response with Some _ => 1 | None => 0 end)%nat.
Proof.
  intros Hm.
  destruct (execute_calls e text response w context w1 Hm) as (r & w' & Hex & _ & He).
  exists w'. split; [by eapply sendMessage_of_execute|]. rewrite He.
  rewrite !fetches_app, !notifications_app, !rollbacks_app.
  destruct response as [|[] [stream|]];
    try (cbn; repeat split; lia).
  unfold callsAfterDispatch, responseError.
  rewrite !fetches_app, !notifications_app, !rollbacks_app,
    fetches_writes, notifications_writes, rollbacks_writes.
  destruct (ending stream); cbn; repeat split; lia.
Qed.

Lemma one_request_per_mutation_witness :
  exists w',
    sendMessage sampleEnv (js "hi") (FetchResolves false (Some helloStream)) onePageWorld
    = (Normal tt, w') /\
    fetches (effects w') = 1%nat /\
    notifications (effects w') = 0%nat /\
    rollbacks (effects w') = 1%nat.
Proof.
  assert (Hm : onMutate sampleEnv (js "hi") onePageWorld
               = (Normal (mkContext []), snd (onMutate sampleEnv (js "hi") onePageWorld)))
    by (vm_compute; reflexivity).
  destruct (one_request_per_mutation sampleEnv (js "hi")
              (FetchResolves false (Some helloStream)) onePageWorld _ _ Hm)
    as (w' & Hrun & Hf & Hn & Hr).
  exists w'. split; [exact Hrun|]. split; [exact Hf|]. split; [exact Hn | exact Hr].
Defined.

(** ** The input text *)

Lemma execute_input_text e text response w :
  exists r w',
    execute e text response w = (r, w') /\
    backupMessage w' = text /\
    message w' = match r with
                 | Normal _ => []
                 | Throw _ => text
                 end.
Proof.
  destruct (onMutate e text w) as [[context|err] w1] eqn:Hm.
  - destruct (onMutate_returns _ _ _ _ _ Hm) as (Hmsg1 & _ & Hb1 & _ & _).
    destruct response as [|[] [stream|]].
    + destruct (execute_request_fails e text FetchRejects w context w1 Hm)
        as (err & Hex); [by left|].
      do 2 eexists. split; [exact Hex|]. by cbn.
    + destruct (execute_stream e text stream w context w1 Hm)
        as (w2 & _ & (_ & Hmsg2 & _ & Hb2 & _) & Hex).
      cbn in Hmsg2, Hb2. rewrite Hex.
      destruct (ending stream); do 2 eexists; (split; [reflexivity|]); cbn;
        rewrite ?Hmsg2, Hb2, ?Hmsg1, ?Hb1; done.
    + rewrite (execute_noBody e text w context w1 Hm).
      do 2 eexists. split; [reflexivity|]. by cbn.
    + destruct (execute_request_fails e text (FetchResolves false (Some stream))
                  w context w1 Hm) as (err & Hex); [right; eauto|].
      do 2 eexists. split; [exact Hex|]. by cbn.
    + destruct (execute_request_fails e text (FetchResolves false None)
                  w context w1 Hm) as (err & Hex); [right; eauto|].
      do 2 eexists. split; [exact Hex|]. by cbn.
  - destruct (onMutate_throws _ _ _ _ _ Hm) as (_ & _ & _ & Hb1 & _).
    rewrite (execute_onMutate_throws e text response w err w1 Hm).
    do 2 eexists. split; [reflexivity|]. by cbn.
Qed.

(** X3: whatever happens, the submitted text is kept in [backupMessage];
    the input field is empty after a mutation that completes and holds
    the submitted text again after one that throws, the updater of
    [onMutate] included. *)
Theorem input_text_after_mutation e text response w :
  exists r w',
    execute e text response w = (r, w') /\
    sendMessage e text response w = (Normal tt, w') /\
    backupMessage w' = text /\
    message w' = match r with
                 | Normal _ => []
                 | Throw _ => text
                 end.
Proof.
  destruct (execute_input_text e text response w) as (r & w' & Hex & Hb & Hmsg).
  exists r, w'. split; [done|]. split; [by eapply sendMessage_of_execute | done].
Qed.

(** ** Submitting on a cached query without pages *)

(** X4: when the chat's query is cached with an empty [pages] array, the
    updater of [onMutate] throws: the request is never sent, the cache and
    the page objects are left as they were, an empty snapshot is written
    with [setData], the input text comes back and the mutation settles
    with the busy flag false. *)
Theorem no_page_submit_is_not_sent e text response w old :
  infiniteQueries w !! Some (queryInput e) = Some old ->
  pages old = [] ->
  exists w',
    execute e text response w = (Throw TypeError, w') /\
    sendMessage e text response w = (Normal tt, w') /\
    effects w' = effects w ++ [ESetMessage []; ECancel; EGetInfiniteData None;
                               ESetInfiniteData (queryInput e);
                               ESetMessage text; ESetData (fileInput e) [];
                               ESetIsLoading false; EInvalidate (fileInput e)] /\
    heap w' = heap w /\ infiniteQueries w' = infiniteQueries w /\
    message w' = text /\ isLoading w' = false.
Proof.
  intros Hold Hpages.
  pose proof (optimisticWrite_noPage e text (submitting text w) old Hold Hpages)
    as Hwrite.
  pose proof (onMutate_run e text w _ _ Hwrite) as Hm. cbn in Hm.
  pose proof (execute_onMutate_throws e text response w _ _ Hm) as Hex.
  eexists. split; [exact Hex|].
  split; [by eapply sendMessage_of_execute|].
  cbn. by rewrite <- !app_assoc.
Qed.

Lemma no_page_submit_is_not_sent_witness :
  exists w',
    sendMessage sampleEnv (js "hi") (FetchResolves true (Some helloStream)) noPageWorld
    = (Normal tt, w') /\
    fetches (effects w') = 0%nat /\ message w' = js "hi".
Proof.
  destruct (no_page_submit_is_not_sent sampleEnv (js "hi")
              (FetchResolves true (Some helloStream)) noPageWorld
              (mkInfiniteData [] []))
    as (w' & _ & Hrun & He & _ & _ & Hmsg & _);
    [by vm_compute | reflexivity |].
  exists w'. split; [exact Hrun|]. split; [by rewrite He | exact Hmsg].
Defined.

(** ** A request that fails *)

(** X5: when [fetch] rejects or the response is not ok, the body is not
    read, whether there is one or not: the heap and the infinite queries
    stay as [onMutate] left them, the snapshot is written to the plain
    query of [{ fileId }], the input text comes back and the busy flag is
    false. *)
Theorem failed_request_reads_no_body e text response w context w1 :
  onMutate e text w = (Normal context, w1) ->
  (response = FetchRejects \/ exists body, response = FetchResolves false body) ->
  exists w',
    sendMessage e text response w = (Normal tt, w') /\
    heap w' = heap w1 /\ infiniteQueries w' = infiniteQueries w1 /\
    queries w' = <[Some (fileInput e) := previousMessages context]> (queries w) /\
    message w' = text /\ isLoading w' = false.
Proof.
  intros Hm Hresp.
  destruct (onMutate_returns _ _ _ _ _ Hm) as (_ & _ & Hb1 & Hq1 & _).
  destruct (execute_request_fails e text response w context w1 Hm Hresp)
    as (err & Hex).
  eexists. split; [by eapply sendMessage_of_execute|].
  cbn. by rewrite Hb1, Hq1.
Qed.

Lemma failed_request_reads_no_body_witness :
  exists w',
    sendMessage sampleEnv (js "hi") (FetchResolves false (Some helloStream)) onePageWorld
    = (Normal tt, w') /\
    cachedMessages sampleEnv w' = [ownMessage sampleEnv 0 (js "hi"); m0] /\
    message w' = js "hi".
Proof.
  assert (Hm : onMutate sampleEnv (js "hi") onePageWorld
               = (Normal (mkContext []), snd (onMutate sampleEnv (js "hi") onePageWorld)))
    by (vm_compute; reflexivity).
  destruct (failed_request_reads_no_body sampleEnv (js "hi")
              (FetchResolves false (Some helloStream)) onePageWorld _ _ Hm)
    as (w' & Hrun & Hh & Hiq & _ & Hmsg & _); [right; eauto|].
  exists w'. split; [exact Hrun|]. split; [|exact Hmsg].
  unfold cachedMessages, cachedPages. rewrite Hh, Hiq. by vm_compute.
Defined.

(** ** The frame of the optimistic insert *)

Lemma cachedMessages_cons e w data r rs :
  infiniteQueries w !! Some (queryInput e) = Some data ->
  pages data = r :: rs ->
  cachedMessages e w
  = messages (deref (heap w) r)
    ++ concat ((fun page => messages (deref (heap w) page)) <$> rs).
Proof.
  intros Hdata Hpages. unfold cachedMessages, cachedPages.
  rewrite Hdata. cbn. by rewrite (pageMessages_cons _ _ _ _ Hpages).
Qed.

Lemma onMutate_page e text w old r rs :
  infiniteQueries w !! Some (queryInput e) = Some old ->
  pages old = r :: rs ->
  wfData (heap w) old ->
  exists context w1,
    onMutate e text w = (Normal context, w1) /\
    tick w1 = S (S (tick w)) /\
    infiniteQueries w1 !! Some (queryInput e)
    = Some (mkInfiniteData (r :: rs) (pageParams old)) /\
    (forall r', r' <> r -> heap w1 !! r' = heap w !! r') /\
    nextCursor (deref (heap w1) r) = nextCursor (deref (heap w) r) /\
    cachedMessages e w1 = ownMessage e (tick w) text :: cachedMessages e w.
Proof.
  intros Hold Hpages [Hnodup _]. rewrite Hpages in Hnodup.
  apply NoDup_cons in Hnodup as [Hnotin _].
  pose proof (optimisticWrite_page e text (submitting text w) old r rs Hold Hpages)
    as Hwrite.
  rewrite (onMutate_run e text w _ _ Hwrite).
  do 2 eexists. split; [reflexivity|]. cbn [heap infiniteQueries submitting tick].
  split; [done|].
  split; [by rewrite lookup_insert_eq|].
  split; [intros r' Hne; by rewrite lookup_insert_ne|].
  split; [by rewrite deref_insert_eq|].
  erewrite (cachedMessages_cons e _ (mkInfiniteData (r :: rs) (pageParams old)) r rs);
    [|cbn; by rewrite lookup_insert_eq|reflexivity].
  rewrite (cachedMessages_cons e w old r rs Hold Hpages).
  cbn [heap]. rewrite deref_insert_eq. cbn [messages app]. do 3 f_equal.
  apply list_fmap_ext. intros i r' Hi. cbn. rewrite deref_insert_ne; [done|].
  intros ->. apply Hnotin. by eapply list_elem_of_lookup_2.
Qed.

(** X6: on a cached query with at least one page (its pages distinct
    objects), [onMutate] puts the own message in front of the first page
    and changes nothing else: the page references and [pageParams] stay,
    every other page object is untouched, and the flattened messages are
    the new message followed by the messages there were. *)
Theorem optimistic_insert_prepends e text w old r rs :
  infiniteQueries w !! Some (queryInput e) = Some old ->
  pages old = r :: rs ->
  wfData (heap w) old ->
  exists context w1,
    onMutate e text w = (Normal context, w1) /\
    infiniteQueries w1 !! Some (queryInput e)
    = Some (mkInfiniteData (r :: rs) (pageParams old)) /\
    (forall r', r' <> r -> heap w1 !! r' = heap w !! r') /\
    nextCursor (deref (heap w1) r) = nextCursor (deref (heap w) r) /\
    cachedMessages e w1 = ownMessage e (tick w) text :: cachedMessages e w.
Proof.
  intros Hold Hpages Hwf.
  destruct (onMutate_page e text w old r rs Hold Hpages Hwf)
    as (context & w1 & Hrun & _ & Hrest).
  by exists context, w1.
Qed.

Lemma optimistic_insert_prepends_witness :
  exists context w1,
    onMutate sampleEnv (js "hi") onePageWorld = (Normal context, w1) /\
    cachedMessages sampleEnv w1 = [ownMessage sampleEnv 0 (js "hi"); m0].
Proof.
  destruct (optimistic_insert_prepends sampleEnv (js "hi") onePageWorld
              (mkInfiniteData [0%nat] [None]) 0%nat [])
    as (context & w1 & Hrun & _ & _ & _ & Hcached).
  - by vm_compute.
  - reflexivity.
  - split; [apply NoDup_singleton|].
    intros r Hr. apply list_elem_of_singleton in Hr as ->.
    eexists. vm_compute. reflexivity.
  - exists context, w1. split; [exact Hrun | exact Hcached].
Defined.

(** ** What a stream leaves in the chat's query *)















(** ** ASCII streams *)







(** ** What [onSuccess] and the mutation leave alone *)

Lemma streamWrite_keys e accResponse w :
  exists data w',
    setInfiniteData (queryInput e) (streamUpdater e accResponse) w = (Normal tt, w') /\
    infiniteQueries w' = <[Some (queryInput e) := data]> (infiniteQueries w) /\
    queries w' = queries w /\
    heap w ⊆ heap w'.
Proof.
  destruct (streamUpdater_pure_total e accResponse
              (infiniteQueries w !! Some (queryInput e))
              (withEffects (effects w ++ [ESetInfiniteData (queryInput e)]) w))
    as (data & w1 & Hupd & Hsub & Hiq).
  unfold setInfiniteData, emit, modify, get, mbind, M_bind. cbn.
  cbn in Hupd. rewrite Hupd. cbn.
  do 2 eexists. split; [reflexivity|]. cbn. rewrite Hiq. cbn.
  split; [done|]. split; [|exact Hsub].
  destruct (infiniteQueries w !! Some (queryInput e)) as [old|]; cbn in Hupd.
  - unfold streamUpdater, get, mbind, M_bind in Hupd. cbn in Hupd.
    match type of Hupd with
    | context [updatedPages ?e ?f ?c ?a ?ps ?w0] =>
        destruct (updatedPages_total e f c a ps w0) as (ps' & h' & t' & Heq & _);
        rewrite Heq in Hupd
    end.
    cbn in Hupd. by injection Hupd as _ <-.
  - by injection Hupd as _ <-.
Qed.

Lemma readLoop_heap e accResponse reads last w :
  heap w ⊆ heap (snd (readLoop e accResponse reads last w)).
Proof.
  revert accResponse w. induction reads as [|value rest IH]; intros accResponse w.
  - destruct last; cbn [readLoop]; [|done].
    destruct (streamWrite_keys e (accResponse ++ decode None) w)
      as (data & w' & Hwrite & _ & _ & Hsub).
    by rewrite Hwrite.
  - cbn [readLoop].
    destruct (streamWrite_keys e (accResponse ++ decode (Some value)) w)
      as (data & w1 & Hwrite & _ & _ & Hsub).
    erewrite mbind_Normal by exact Hwrite.
    etrans; [exact Hsub | apply IH].
Qed.

(** X10: [onSuccess] never changes an existing page object, with or
    without a body and however the stream ends: it only allocates new
    ones, so whatever held a page before reads the same from it after. *)
Theorem onSuccess_allocates_only e stream w :
  heap w ⊆ heap (snd (onSuccess e stream w)) /\
  forall r, is_Some (heap w !! r) ->
            deref (heap (snd (onSuccess e stream w))) r = deref (heap w) r.
Proof.
  assert (Hsub : heap w ⊆ heap (snd (onSuccess e stream w))).
  { unfold onSuccess, setIsLoading, toast, emit, modify, mbind, M_bind.
    cbn -[readLoop js]. destruct stream as [stream|]; [|done].
    apply (readLoop_heap e [] (chunks stream) (ending stream)
             (withIsLoading false (withEffects (effects w ++ [ESetIsLoading false]) w))). }
  split; [exact Hsub|]. intros r Hr. by apply deref_subseteq.
Qed.

Lemma sameOtherQueries_refl e w : sameOtherQueries e w w.
Proof. by split. Qed.

Lemma sameOtherQueries_trans e w w1 w2 :
  sameOtherQueries e w w1 -> sameOtherQueries e w1 w2 -> sameOtherQueries e w w2.
Proof.
  intros [Hi1 Hq1] [Hi2 Hq2]. split; intros input Hne.
  - by rewrite Hi2, Hi1.
  - by rewrite Hq2, Hq1.
Qed.

Lemma sameOtherQueries_step e w w' : step e w w' -> sameOtherQueries e w w'.
Proof.
  intros Hstep. destruct Hstep as
    [text w r w' H | accResponse w r w' H | data w r w' H
    | value w r w' H | value w r w' H | value w | ev w r w' H].
  - destruct (infiniteQueries w !! Some (queryInput e)) as [old|] eqn:Hold.
    + destruct (pages old) as [|page rs] eqn:Hpages.
      * rewrite (optimisticWrite_noPage e text w old Hold Hpages) in H.
        injection H as _ <-. by split.
      * rewrite (optimisticWrite_page e text w old page rs Hold Hpages) in H.
        injection H as _ <-. split; [|done].
        intros input Hne. cbn. by rewrite lookup_insert_ne.
    + rewrite (optimisticWrite_absent e text w Hold) in H.
      injection H as _ <-. split; [|done].
      intros input Hne. cbn. by rewrite lookup_insert_ne.
  - destruct (streamWrite_keys e accResponse w) as (data & w1 & Hwrite & Hiq & Hq & _).
    rewrite Hwrite in H. injection H as _ <-. split.
    + intros input Hne. rewrite Hiq. by rewrite lookup_insert_ne.
    + intros input Hne. by rewrite Hq.
  - injection H as _ <-. split; [done|].
    intros input Hne. cbn. by rewrite lookup_insert_ne.
  - injection H as _ <-. by split.
  - injection H as _ <-. by split.
  - by split.
  - injection H as _ <-. by split.
Qed.

Lemma onMutate_heap_frame e text w res w1 r' :
  onMutate e text w = (res, w1) ->
  (forall old, infiniteQueries w !! Some (queryInput e) = Some old ->
               pages old !! 0%nat <> Some r') ->
  heap w1 !! r' = heap w !! r'.
Proof.
  intros Hm Hfirst.
  destruct (infiniteQueries w !! Some (queryInput e)) as [old|] eqn:Hold.
  - destruct (pages old) as [|page rs] eqn:Hpages.
    + pose proof (optimisticWrite_noPage e text (submitting text w) old Hold Hpages)
        as Hwrite.
      rewrite (onMutate_run e text w _ _ Hwrite) in Hm. by injection Hm as _ <-.
    + pose proof (optimisticWrite_page e text (submitting text w) old page rs Hold Hpages)
        as Hwrite.
      rewrite (onMutate_run e text w _ _ Hwrite) in Hm. injection Hm as _ <-.
      cbn. rewrite lookup_insert_ne; [done|].
      intros ->. apply (Hfirst old eq_refl). by rewrite Hpages.
  - pose proof (optimisticWrite_absent e text (submitting text w) Hold) as Hwrite.
    rewrite (onMutate_run e text w _ _ Hwrite) in Hm. by injection Hm as _ <-.
Qed.

Lemma execute_heap_after e text response w res w1 :
  onMutate e text w = (res, w1) ->
  heap w1 ⊆ heap (snd (execute e text response w)).
Proof.
  intros Hm. destruct res as [context|err].
  - destruct response as [|[] [stream|]].
    + destruct (execute_request_fails e text FetchRejects w context w1 Hm)
        as (err & Hex); [by left|]. by rewrite Hex.
    + destruct (execute_stream e text stream w context w1 Hm)
        as (w2 & Hloop & _ & Hex).
      pose proof (readLoop_heap e [] (chunks stream) (ending stream)
                    (streaming e text w1)) as Hsub.
      rewrite Hloop in Hsub. rewrite Hex. by destruct (ending stream).
    + by rewrite (execute_noBody e text w context w1 Hm).
    + destruct (execute_request_fails e text (FetchResolves false (Some stream))
                  w context w1 Hm) as (err & Hex); [right; eauto|]. by rewrite Hex.
    + destruct (execute_request_fails e text (FetchResolves false None)
                  w context w1 Hm) as (err & Hex); [right; eauto|]. by rewrite Hex.
  - by rewrite (execute_onMutate_throws e text response w err w1 Hm).
Qed.

Lemma addMessage_world e response w :
  snd (addMessage e response w) = snd (execute e (message w) response w).
Proof.
  unfold addMessage, get, mbind, M_bind. cbn -[sendMessage].
  destruct (execute e (message w) response w) as [res w'] eqn:Hex.
  by rewrite (sendMessage_of_execute _ _ _ _ _ _ Hex).
Qed.

(** X11: a call of [addMessage], whatever the response, writes no entry
    but the infinite query of [{ fileId, limit }] and the plain query of
    [{ fileId }]: the entries of every other input, other files included,
    hold the pages and the data they held.  The one page object it
    assigns to is the first page of the chat's query; every other page
    object is unchanged, so another infinite query reads the same
    messages as before when none of its pages is that object. *)
Theorem addMessage_keeps_other_queries e response w :
  sameOtherQueries e w (snd (addMessage e response w)) /\
  (forall r' p,
      heap w !! r' = Some p ->
      (forall old, infiniteQueries w !! Some (queryInput e) = Some old ->
                   pages old !! 0%nat <> Some r') ->
      heap (snd (addMessage e response w)) !! r' = Some p) /\
  (forall input data,
      input <> Some (queryInput e) ->
      infiniteQueries w !! input = Some data ->
      (forall page, page ∈ pages data -> is_Some (heap w !! page)) ->
      (forall old page,
          infiniteQueries w !! Some (queryInput e) = Some old ->
          page ∈ pages data -> pages old !! 0%nat <> Some page) ->
      infiniteQueries (snd (addMessage e response w)) !! input = Some data /\
      pageMessages (heap (snd (addMessage e response w))) data
      = pageMessages (heap w) data).
Proof.
  assert (Hsame : sameOtherQueries e w (snd (addMessage e response w))).
  { pose proof (stepwise_addMessage e response w) as Hsteps.
    induction Hsteps as [w | w w1 w' Hstep _ IH]; [apply sameOtherQueries_refl|].
    eapply sameOtherQueries_trans; [by apply sameOtherQueries_step | exact IH]. }
  assert (Hheap : forall r' p,
      heap w !! r' = Some p ->
      (forall old, infiniteQueries w !! Some (queryInput e) = Some old ->
                   pages old !! 0%nat <> Some r') ->
      heap (snd (addMessage e response w)) !! r' = Some p).
  { intros r' p Hr' Hfirst. rewrite addMessage_world.
    destruct (onMutate e (message w) w) as [res w1] eqn:Hm.
    pose proof (onMutate_heap_frame e (message w) w res w1 r' Hm Hfirst) as Hframe.
    eapply lookup_weaken; [|by eapply execute_heap_after].
    by rewrite Hframe. }
  split; [exact Hsame|]. split; [exact Hheap|].
  intros input data Hne Hdata Halloc Hshare. split.
  - destruct Hsame as [Hiq _]. by rewrite Hiq.
  - unfold pageMessages. apply list_fmap_ext. intros i page Hi.
    assert (Hin : page ∈ pages data) by (by eapply list_elem_of_lookup_2).
    destruct (Halloc page Hin) as [p Hp].
    unfold deref. rewrite Hp, (Hheap page p Hp); [done|].
    intros old Hold. by eapply Hshare.
Qed.

(** ** The snapshot *)

Lemma flatMessages_concat h previous :
  flatMessages h previous
  = match previous with
    | Some data => concat (pageMessages h data)
    | None => []
    end.
Proof.
  destruct previous as [data|]; [|done]. unfold flatMessages, pageMessages.
  induction (pages data) as [|page rest IH]; [done|]. cbn. by rewrite IH.
Qed.

(** X12: the snapshot [onMutate] returns is not taken from the chat's
    query: it is the messages of all pages, in page order, of the
    infinite query without input (the one [getInfiniteData()] finds), and
    empty when that query is not cached.  The pages are read when
    [onMutate] returns; when none of them is the first page object of the
    chat's query, that is what they held at the submit. *)
Theorem snapshot_is_of_the_inputless_query e text w context w1 :
  onMutate e text w = (Normal context, w1) ->
  previousMessages context
  = match infiniteQueries w !! None with
    | Some data => concat (pageMessages (heap w1) data)
    | None => []
    end /\
  (forall data,
      infiniteQueries w !! None = Some data ->
      (forall page, page ∈ pages data -> is_Some (heap w !! page)) ->
      (forall old page,
          infiniteQueries w !! Some (queryInput e) = Some old ->
          page ∈ pages data -> pages old !! 0%nat <> Some page) ->
      previousMessages context = concat (pageMessages (heap w) data)).
Proof.
  intros Hm.
  assert (Hsnap : previousMessages context
                  = flatMessages (heap w1) (infiniteQueries w !! None)).
  { destruct (optimisticWrite_cases e text (submitting text w))
      as (r & w0 & Heq & _ & Hr).
    pose proof Hm as Hm'. rewrite (onMutate_run e text w r w0 Heq) in Hm'.
    destruct Hr as [-> | ->]; [|done]. by injection Hm' as <- <-. }
  rewrite flatMessages_concat in Hsnap. split; [exact Hsnap|].
  intros data Hdata Halloc Hshare. rewrite Hsnap, Hdata. f_equal.
  unfold pageMessages. apply list_fmap_ext. intros i page Hi.
  assert (Hin : page ∈ pages data) by (by eapply list_elem_of_lookup_2).
  unfold deref.
  rewrite (onMutate_heap_frame e text w _ w1 page Hm); [done|].
  intros old Hold. by eapply Hshare.
Qed.

Lemma snapshot_is_of_the_inputless_query_witness :
  cachedMessages sampleEnv inputlessWorld = [m0] /\
  exists context w1,
    onMutate sampleEnv (js "hi") inputlessWorld = (Normal context, w1) /\
    previousMessages context = [m1].
Proof.
  split; [by vm_compute|].
  assert (Hm : onMutate sampleEnv (js "hi") inputlessWorld
               = (Normal (mkContext [m1]),
                  snd (onMutate sampleEnv (js "hi") inputlessWorld)))
    by (vm_compute; reflexivity).
  destruct (snapshot_is_of_the_inputless_query sampleEnv (js "hi") inputlessWorld _ _ Hm)
    as [Hsnap _].
  do 2 eexists. split; [exact Hm|]. rewrite Hsnap. by vm_compute.
Defined.

(** ** A mutation that succeeds *)



